(** * Eigenvalue estimation circuits: QPE builder and approximate inverse QFT

    A shallow embedding of

    - [qiskit_acqua/utils/iqfts/approximate.py]  (class [Approximate]),
    - [qiskit/aqua/components/eigs/qpe.py]       (class [QPE]),

    followed by the properties of these two classes.

    Conventions of the embedding.

    - Python [int] is [Z].  A finite Python [float] is idealised as a real
      number: exact arithmetic, no rounding.  What is kept of the floating
      point format is where the code's outcome depends on it: the
      conversion of an integer of 1024 bits or more to a float raises
      [OverflowError], and a division by a zero [numpy.float64] returns an
      infinity or a nan instead of raising.  Python's [/] on Python
      numbers is the partial operation [truediv], which raises
      [ZeroDivisionError] on a zero divisor.
    - A raised exception is the [Raise] branch of [Result].  A method that
      assigns attributes of [self] is a function in the monad [Method],
      which threads the object and keeps the attributes assigned so far
      when an exception is raised.
    - A circuit is the list of its gates, oldest first; [circuit.h(q)]
      appends one gate.  A register is the list of its qubits.
    - What the two classes import from qiskit, scipy and the rest of aqua
      (registers, the phase-estimation synthesizer, the operator class,
      the pluggable registry, schema validation) is not part of them; it
      is an interface over which everything below is
      parametric: the classes [Terra] and [Aqua]. *)

From Stdlib Require Import Reals Lra Lia ZArith.
From stdpp Require Import base option list gmap strings.

(** ** Exceptions and results *)

Inductive Exception : Type :=
| ValueError (msg : string)
| RuntimeError (msg : string)
| AquaError (msg : string)
| ZeroDivisionError
| OverflowError
| IndexError
| KeyError (key : string)
| TypeError
| AttributeError
| Foreign (msg : string).

Inductive Result (A : Type) : Type :=
| Return (a : A)
| Raise (e : Exception).
Arguments Return {A} a.
Arguments Raise {A} e.

#[global] Instance Result_ret : MRet Result := @Return.
#[global] Instance Result_bind : MBind Result := fun A B f m =>
  match m with
  | Return a => f a
  | Raise e => Raise e
  end.

Definition returns {A} (r : Result A) : bool :=
  match r with Return _ => true | Raise _ => false end.

(** ** Python built-ins *)

(** A [float] value: a real number, or one of the three special values. *)
Inductive Float64 : Type :=
| Finite (r : R)
| Infinity
| NegInfinity
| NaN.

(** [x / y] on Python numbers. *)
Definition truediv (x y : R) : Result R :=
  if Req_dec_T y 0 then Raise ZeroDivisionError else Return (x / y)%R.

(** [x / y] for a Python [float] [x] and a [numpy.float64] [y]: the
    division is numpy's, which on a zero divisor warns and returns an
    infinity of the sign of [x], or nan for a zero [x]. *)
Definition np_truediv (x y : R) : Float64 :=
  if Req_dec_T y 0 then
    if Rlt_dec 0 x then Infinity
    else if Rlt_dec x 0 then NegInfinity
    else NaN
  else Finite (x / y).

(** [2 ** e] for an integer [e]: an [int] for [e >= 0], a [float] for
    [e < 0]; as a real number it is [2^e] in both cases. *)
Definition pow2 (e : Z) : R := powerRZ 2 e.

(** [2 ** e] as a [float], where the code converts it: by [float(...)] or
    as the integer divisor of a float.  For [e >= 1024] the integer
    [2 ** e] is too large to convert and [OverflowError] is raised. *)
Definition float_pow2 (e : Z) : Result R :=
  if (1024 <=? e)%Z then Raise OverflowError else Return (pow2 e).

(** [range(lo, hi)], ascending; empty when [hi <= lo]. *)
Definition range (lo hi : Z) : list Z :=
  map (fun i => (lo + Z.of_nat i)%Z) (seq 0 (Z.to_nat (hi - lo))).

Definition reversed {A} (l : list A) : list A := rev l.

(** [enumerate(l)]. *)
Definition enumerate {A} (l : list A) : list (Z * A) :=
  zip (range 0 (Z.of_nat (length l))) l.

(** [l[i]], negative indices counting from the end. *)
Definition getitem {A} (l : list A) (i : Z) : Result A :=
  let i' := if (i <? 0)%Z then (i + Z.of_nat (length l))%Z else i in
  if (i' <? 0)%Z then Raise IndexError
  else match l !! Z.to_nat i' with
       | Some a => Return a
       | None => Raise IndexError
       end.

(** [sum(l)]: a left fold from the integer [0]. *)
Definition sum (l : list R) : R := fold_left Rplus l 0%R.

(** [for x in xs: body], the loop state passed along; an exception in the
    body ends the loop. *)
Fixpoint for_ {M : Type -> Type} `{!MRet M, !MBind M} {A S}
  (xs : list A) (body : A -> S -> M S) (s : S) : M S :=
  match xs with
  | [] => mret s
  | x :: xs' => s' ← body x s; for_ xs' body s'
  end.

Definition dquote : string := String (Ascii.ascii_of_nat 34) EmptyString.

(** ** Qubits, gates, circuits *)

(** A qubit is a register name and an index in that register. *)
Definition Qubit : Type := string * nat.
Abbreviation Register := (list Qubit) (only parsing).

Inductive Gate : Type :=
| H (q : Qubit)
| CX (ctl tgt : Qubit)
| CU1 (theta : R) (ctl tgt : Qubit)
| U (name : string) (params : list R) (qubits : list Qubit).

Abbreviation Circuit := (list Gate) (only parsing).

Definition h (q : Qubit) (circuit : Circuit) : Circuit := circuit ++ [H q].
Definition cx (ctl tgt : Qubit) (circuit : Circuit) : Circuit :=
  circuit ++ [CX ctl tgt].
Definition cu1 (theta : R) (ctl tgt : Qubit) (circuit : Circuit) : Circuit :=
  circuit ++ [CU1 theta ctl tgt].

Definition is_cu1 (g : Gate) : bool :=
  match g with CU1 _ _ _ => true | _ => false end.

(** ** Numbers and matrices *)

Record complex : Type := Complex { real : R; imag : R }.

Definition conjugate (c : complex) : complex := Complex (real c) (- imag c)%R.
Definition czero : complex := Complex 0 0.

(** A two-dimensional array, row by row. *)
Abbreviation Matrix := (list (list complex)) (only parsing).

(** [np.zeros((r, c), dtype=complex)] *)
Definition zeros (r c : nat) : Matrix := replicate r (replicate c czero).

(** [m.shape] *)
Definition shape (m : Matrix) : nat * nat :=
  (length m, match m with [] => 0 | row :: _ => length row end).

(** [m[i, j]] *)
Definition entry (m : Matrix) (i j : nat) : complex :=
  nth j (nth i m []) czero.

Definition transpose (m : Matrix) : Matrix :=
  map (fun j => map (fun row => nth j row czero) m) (seq 0 (shape m).2).

(** [np.matrix.getH(m)]: [m.transpose().conjugate()] *)
Definition getH (m : Matrix) : Matrix := map (map conjugate) (transpose m).

(** Broadcasting of one axis to length [n]: the axis has that length
    already, or has length one and is repeated. *)
Definition broadcast {A} (n : nat) (l : list A) : Result (list A) :=
  if decide (length l = n) then Return l
  else match l with
       | [a] => Return (replicate n a)
       | _ => Raise (ValueError "could not broadcast input array")
       end.

Definition broadcast_to (rows cols : nat) (v : Matrix) : Result Matrix :=
  v ← mapM (broadcast cols) v;
  broadcast rows v.

(** [m[r0:r0+rows, c0:c0+cols] = v] for a slice that lies inside [m]. *)
Definition setitem_block (m : Matrix) (r0 c0 rows cols : nat) (v : Matrix)
  : Result Matrix :=
  v ← broadcast_to rows cols v;
  mret (imap (fun i row =>
                if decide (r0 <= i < r0 + rows)%nat
                then take c0 row ++ nth (i - r0) v [] ++ drop (c0 + cols) row
                else row) m).

(** The block matrix [[a, b], [c, d]]. *)
Definition block (a b c d : Matrix) : Matrix :=
  zip_with app a b ++ zip_with app c d.

(** [m] has [r] rows of [c] entries each. *)
Definition has_shape (r c : nat) (m : Matrix) : Prop :=
  length m = r /\ Forall (fun row => length row = c) m.

(** ** Operators as weighted Pauli terms *)

(** A coefficient [p[0]]: a Python real number or [complex], or a numpy
    scalar, [numpy.float64] or [numpy.complex128] (what the conversion of
    a matrix to Pauli terms produces). *)
Inductive coef : Type :=
| PyFloat (x : R)
| PyComplex (c : complex)
| NpFloat (x : R)
| NpComplex (c : complex).

Definition abs (c : coef) : R :=
  match c with
  | PyFloat x | NpFloat x => Rabs x
  | PyComplex c | NpComplex c => sqrt (real c * real c + imag c * imag c)
  end.

(** Whether [abs(c)] is a [numpy.float64] rather than a Python [float]. *)
Definition numpy_scalar (c : coef) : bool :=
  match c with
  | PyFloat _ | PyComplex _ => false
  | NpFloat _ | NpComplex _ => true
  end.

(** A Pauli string [p[1]]: its [z] and [x] bit patterns. *)
Record Pauli : Type := { z : list bool; x : list bool }.

Definition Term : Type := coef * Pauli.

Record Operator : Type := { paulis : list Term; num_qubits : Z }.

(** ** Components and configuration *)

(** What [construct_circuit] of a QFT component returns: a matrix in
    vector mode, the circuit in circuit mode. *)
Inductive Output : Type :=
| OutMatrix (m : Matrix)
| OutCircuit (c : Circuit).

(** A pluggable (inverse) QFT component.  In circuit mode it appends its
    gates to the circuit it is given and returns that circuit. *)
Record QFT : Type :=
  { qft_construct_circuit :
      string -> option Register -> option Circuit -> Result Output }.

Inductive Value : Type :=
| VNone
| VBool (b : bool)
| VInt (n : Z)
| VFloat (r : R)
| VStr (s : string).

Inductive PluggableType : Type := IQFT_TYPE | QFT_TYPE.

(** [d[key]] *)
Definition dict_getitem (d : gmap string Value) (key : string)
  : Result Value :=
  match d !! key with
  | Some v => Return v
  | None => Raise (KeyError key)
  end.

(** [v - k] for an integer [k]. *)
Definition value_sub (v : Value) (k : Z) : Result Value :=
  match v with
  | VInt n => Return (VInt (n - k))
  | VBool b => Return (VInt ((if b then 1 else 0) - k))
  | VFloat r => Return (VFloat (r - IZR k))
  | _ => Raise TypeError
  end.

(** The [eigs] section of the parameters, as schema validation leaves it. *)
Record EigsParams : Type :=
  { eigs_name : string;
    eigs_num_time_slices : Z;
    eigs_expansion_mode : string;
    eigs_expansion_order : Z;
    eigs_num_ancillae : Z;
    eigs_evo_time : option Float64;
    eigs_use_basis_gates : bool;
    eigs_hermitian_matrix : bool;
    eigs_negative_evals : bool }.

(** The parameters dictionary: the three sections [init_params] reads.
    The [iqft] and [qft] sections are dictionaries; [init_params] writes
    [num_qubits] into them. *)
Record Params : Type :=
  { eigs : EigsParams;
    iqft : gmap string Value;
    qft : gmap string Value }.

(** Keyword arguments of [PhaseEstimation(...)] as [QPE] passes them. *)
Record PhaseEstimationArgs : Type :=
  { pe_operator : Operator;
    pe_iqft : QFT;
    pe_num_time_slices : Z;
    pe_num_ancillae : Z;
    pe_expansion_mode : string;
    pe_expansion_order : Z;
    pe_evo_time : option Float64 }.

(** The parameters of [QPE.__init__], bound. *)
Record QPEArgs : Type :=
  { arg_operator : Operator;
    arg_iqft : QFT;
    arg_num_time_slices : Z;
    arg_num_ancillae : Z;
    arg_expansion_mode : string;
    arg_expansion_order : Z;
    arg_evo_time : option Float64;
    arg_use_basis_gates : bool;
    arg_hermitian_matrix : bool;
    arg_negative_evals : bool;
    arg_ne_qfts : list (option QFT) }.

(** The dictionary [args] of [init_params], later passed as [**args]:
    [None] is a key not in the dictionary. *)
Record KwArgs : Type :=
  { kw_operator : option Operator;
    kw_iqft : option QFT;
    kw_num_time_slices : option Z;
    kw_num_ancillae : option Z;
    kw_expansion_mode : option string;
    kw_expansion_order : option Z;
    kw_evo_time : option (option Float64);
    kw_use_basis_gates : option bool;
    kw_hermitian_matrix : option bool;
    kw_negative_evals : option bool;
    kw_ne_qfts : option (list (option QFT)) }.

(** [args[key] = v] *)
Definition kw_set_num_ancillae (v : Z) (args : KwArgs) : KwArgs :=
  {| kw_operator := kw_operator args; kw_iqft := kw_iqft args;
     kw_num_time_slices := kw_num_time_slices args;
     kw_num_ancillae := Some v;
     kw_expansion_mode := kw_expansion_mode args;
     kw_expansion_order := kw_expansion_order args;
     kw_evo_time := kw_evo_time args;
     kw_use_basis_gates := kw_use_basis_gates args;
     kw_hermitian_matrix := kw_hermitian_matrix args;
     kw_negative_evals := kw_negative_evals args;
     kw_ne_qfts := kw_ne_qfts args |}.

Definition kw_set_operator (v : Operator) (args : KwArgs) : KwArgs :=
  {| kw_operator := Some v; kw_iqft := kw_iqft args;
     kw_num_time_slices := kw_num_time_slices args;
     kw_num_ancillae := kw_num_ancillae args;
     kw_expansion_mode := kw_expansion_mode args;
     kw_expansion_order := kw_expansion_order args;
     kw_evo_time := kw_evo_time args;
     kw_use_basis_gates := kw_use_basis_gates args;
     kw_hermitian_matrix := kw_hermitian_matrix args;
     kw_negative_evals := kw_negative_evals args;
     kw_ne_qfts := kw_ne_qfts args |}.

Definition kw_set_iqft (v : QFT) (args : KwArgs) : KwArgs :=
  {| kw_operator := kw_operator args; kw_iqft := Some v;
     kw_num_time_slices := kw_num_time_slices args;
     kw_num_ancillae := kw_num_ancillae args;
     kw_expansion_mode := kw_expansion_mode args;
     kw_expansion_order := kw_expansion_order args;
     kw_evo_time := kw_evo_time args;
     kw_use_basis_gates := kw_use_basis_gates args;
     kw_hermitian_matrix := kw_hermitian_matrix args;
     kw_negative_evals := kw_negative_evals args;
     kw_ne_qfts := kw_ne_qfts args |}.

Definition kw_set_ne_qfts (v : list (option QFT)) (args : KwArgs) : KwArgs :=
  {| kw_operator := kw_operator args; kw_iqft := kw_iqft args;
     kw_num_time_slices := kw_num_time_slices args;
     kw_num_ancillae := kw_num_ancillae args;
     kw_expansion_mode := kw_expansion_mode args;
     kw_expansion_order := kw_expansion_order args;
     kw_evo_time := kw_evo_time args;
     kw_use_basis_gates := kw_use_basis_gates args;
     kw_hermitian_matrix := kw_hermitian_matrix args;
     kw_negative_evals := kw_negative_evals args;
     kw_ne_qfts := Some v |}.

(** [{k: v for k, v in eigs_params.items() if k != 'name'}] *)
Definition args_of_eigs (e : EigsParams) : KwArgs :=
  {| kw_operator := None; kw_iqft := None;
     kw_num_time_slices := Some (eigs_num_time_slices e);
     kw_num_ancillae := Some (eigs_num_ancillae e);
     kw_expansion_mode := Some (eigs_expansion_mode e);
     kw_expansion_order := Some (eigs_expansion_order e);
     kw_evo_time := Some (eigs_evo_time e);
     kw_use_basis_gates := Some (eigs_use_basis_gates e);
     kw_hermitian_matrix := Some (eigs_hermitian_matrix e);
     kw_negative_evals := Some (eigs_negative_evals e);
     kw_ne_qfts := None |}.

(** Binding [**args] to the parameters of [QPE.__init__] and their
    defaults; [operator] and [iqft] have none. *)
Definition bind_args (args : KwArgs) : Result QPEArgs :=
  match kw_operator args, kw_iqft args with
  | Some operator, Some iqft =>
      Return
        {| arg_operator := operator; arg_iqft := iqft;
           arg_num_time_slices := default 1%Z (kw_num_time_slices args);
           arg_num_ancillae := default 1%Z (kw_num_ancillae args);
           arg_expansion_mode := default "trotter" (kw_expansion_mode args);
           arg_expansion_order := default 1%Z (kw_expansion_order args);
           arg_evo_time := default None (kw_evo_time args);
           arg_use_basis_gates := default true (kw_use_basis_gates args);
           arg_hermitian_matrix := default true (kw_hermitian_matrix args);
           arg_negative_evals := default false (kw_negative_evals args);
           arg_ne_qfts := default [None; None] (kw_ne_qfts args) |}
  | _, _ => Raise TypeError
  end.

(** [params[section] = d] *)
Definition set_iqft (d : gmap string Value) (params : Params) : Params :=
  {| eigs := eigs params; iqft := d; qft := qft params |}.
Definition set_qft (d : gmap string Value) (params : Params) : Params :=
  {| eigs := eigs params; iqft := iqft params; qft := d |}.

(** ** The collaborators *)

(** What [approximate.py] and [qpe.py] import from qiskit and scipy. *)
Class Terra : Type :=
  { (** [QuantumRegister(size, name)] *)
    QuantumRegister : Z -> option string -> Result Register;
    (** [scipy.linalg.dft(n, scale)] *)
    linalg_dft : R -> string -> Result Matrix }.

(** What [qpe.py] imports from the rest of aqua. *)
Class Aqua : Type :=
  { (** [Operator(matrix=m)], seen through its Pauli representation *)
    Operator_of_matrix : Matrix -> Result Operator;
    (** [PhaseEstimation(...)] and its [construct_circuit] *)
    PhaseEstimation : Type;
    PhaseEstimation_new : PhaseEstimationArgs -> Result PhaseEstimation;
    PhaseEstimation_construct_circuit :
      PhaseEstimation -> option Register -> Register -> Result Circuit;
    (** [Pluggable.validate] against the input schema *)
    validate : QPEArgs -> Result unit;
    (** [get_pluggable_class(type, name).init_params(params)] *)
    pluggable_init_params :
      PluggableType -> Value -> Params -> Result QFT }.

(** ** [approximate.py] *)

Module Approximate.
Section Approximate.
Context `{Terra}.

Record Approximate : Type := { _num_qubits : Z; _degree : Z }.

Definition __init__ : Approximate := {| _num_qubits := 0; _degree := 0 |}.

Definition init_args (self : Approximate) (num_qubits : Z)
  (degree : option Z) : Approximate :=
  {| _num_qubits := num_qubits; _degree := default 1%Z degree |}.

(** One pass of the inner loop: [circuit.cu1(-1.0 * pi / float(2 ** (j - k)),
    register[j], register[k])]. *)
Definition cu1_step (register : Register) (j k : Z) (circuit : Circuit)
  : Result Circuit :=
  d ← float_pow2 (j - k);
  theta ← truediv (-1 * PI) d;
  qj ← getitem register j;
  qk ← getitem register k;
  mret (cu1 theta qj qk circuit).

(** One pass of the outer loop. *)
Definition h_step (self : Approximate) (register : Register) (j : Z)
  (circuit : Circuit) : Result Circuit :=
  qj ← getitem register j;
  let circuit := h qj circuit in
  let neighbor_range :=
    range (Z.max 0 (j - _num_qubits self + _degree self + 1)) j in
  for_ (reversed neighbor_range) (cu1_step register j) circuit.

Definition construct_circuit (self : Approximate) (mode : string)
  (register : option Register) (circuit : option Circuit) : Result Output :=
  if String.eqb mode "vector" then
    m ← linalg_dft (pow2 (_num_qubits self)) "sqrtn";
    mret (OutMatrix m)
  else if String.eqb mode "circuit" then
    register ← match register with
               | None => QuantumRegister (_num_qubits self) (Some "q")
               | Some r => Return r
               end;
    let circuit := match circuit with
                   | None => []
                   | Some c => c
                   end in
    circuit ← for_ (reversed (range 0 (_num_qubits self)))
                (h_step self register) circuit;
    mret (OutCircuit circuit)
  else
    Raise (ValueError ("Mode should be either " ++ dquote ++ "vector"
                       ++ dquote ++ " or " ++ dquote ++ "circuit" ++ dquote)).

(** The component an [Approximate] object is for its users. *)
Definition as_QFT (self : Approximate) : QFT :=
  {| qft_construct_circuit := construct_circuit self |}.

End Approximate.
End Approximate.

(** ** [qpe.py] *)

Module QPE.
Section QPE.
Context `{Terra, Aqua}.

Record QPE : Type :=
  { _num_ancillae : Z;
    _iqft : QFT;
    _operator : Operator;
    _num_time_slices : Z;
    _expansion_mode : string;
    _expansion_order : Z;
    _evo_time : option Float64;
    _use_basis_gates : bool;
    _hermitian_matrix : bool;
    _negative_evals : bool;
    _ne_qfts : list (option QFT);
    (** attributes assigned after construction starts; [None]: not yet *)
    _ancilla_phase_coef : option R;
    _ret : option (gmap string Value);
    _circuit : option Circuit;
    _output_register : option Register;
    _input_register : option (option Register) }.

(** Attribute assignments. *)
Definition set_evo_time (t : Float64) (self : QPE) : QPE :=
  {| _num_ancillae := _num_ancillae self; _iqft := _iqft self;
     _operator := _operator self; _num_time_slices := _num_time_slices self;
     _expansion_mode := _expansion_mode self;
     _expansion_order := _expansion_order self;
     _evo_time := Some t;
     _use_basis_gates := _use_basis_gates self;
     _hermitian_matrix := _hermitian_matrix self;
     _negative_evals := _negative_evals self; _ne_qfts := _ne_qfts self;
     _ancilla_phase_coef := _ancilla_phase_coef self; _ret := _ret self;
     _circuit := _circuit self; _output_register := _output_register self;
     _input_register := _input_register self |}.

Definition set_ancilla_phase_coef (c : R) (self : QPE) : QPE :=
  {| _num_ancillae := _num_ancillae self; _iqft := _iqft self;
     _operator := _operator self; _num_time_slices := _num_time_slices self;
     _expansion_mode := _expansion_mode self;
     _expansion_order := _expansion_order self;
     _evo_time := _evo_time self;
     _use_basis_gates := _use_basis_gates self;
     _hermitian_matrix := _hermitian_matrix self;
     _negative_evals := _negative_evals self; _ne_qfts := _ne_qfts self;
     _ancilla_phase_coef := Some c; _ret := _ret self;
     _circuit := _circuit self; _output_register := _output_register self;
     _input_register := _input_register self |}.

Definition set_ret (r : gmap string Value) (self : QPE) : QPE :=
  {| _num_ancillae := _num_ancillae self; _iqft := _iqft self;
     _operator := _operator self; _num_time_slices := _num_time_slices self;
     _expansion_mode := _expansion_mode self;
     _expansion_order := _expansion_order self;
     _evo_time := _evo_time self;
     _use_basis_gates := _use_basis_gates self;
     _hermitian_matrix := _hermitian_matrix self;
     _negative_evals := _negative_evals self; _ne_qfts := _ne_qfts self;
     _ancilla_phase_coef := _ancilla_phase_coef self; _ret := Some r;
     _circuit := _circuit self; _output_register := _output_register self;
     _input_register := _input_register self |}.

Definition set_circuit (qc : Circuit) (a : Register) (q : option Register)
  (self : QPE) : QPE :=
  {| _num_ancillae := _num_ancillae self; _iqft := _iqft self;
     _operator := _operator self; _num_time_slices := _num_time_slices self;
     _expansion_mode := _expansion_mode self;
     _expansion_order := _expansion_order self;
     _evo_time := _evo_time self;
     _use_basis_gates := _use_basis_gates self;
     _hermitian_matrix := _hermitian_matrix self;
     _negative_evals := _negative_evals self; _ne_qfts := _ne_qfts self;
     _ancilla_phase_coef := _ancilla_phase_coef self; _ret := _ret self;
     _circuit := Some qc; _output_register := Some a;
     _input_register := Some q |}.

(** A method that may assign attributes of [self] and may raise: the
    object after the call comes with the result either way. *)
Definition Method (A : Type) : Type := QPE -> Result A * QPE.

#[global] Instance Method_ret : MRet Method := fun A a self => (Return a, self).
#[global] Instance Method_bind : MBind Method := fun A B f m self =>
  match m self with
  | (Return a, self') => f a self'
  | (Raise e, self') => (Raise e, self')
  end.

Definition get : Method QPE := fun self => (Return self, self).
Definition assign (f : QPE -> QPE) : Method unit :=
  fun self => (Return tt, f self).
Definition lift {A} (r : Result A) : Method A := fun self => (r, self).
Definition raise {A} (e : Exception) : Method A := lift (Raise e).

(** [np.all(p.z == 0) and np.all(p.x == 0)] *)
Definition is_identity (p : Pauli) : bool :=
  forallb negb (z p) && forallb negb (x p).

(** [c.real if isinstance(c, complex) else c] *)
Definition real_part (c : coef) : R :=
  match c with
  | PyComplex c | NpComplex c => real c
  | PyFloat x | NpFloat x => x
  end.

(** The body of the loop over the terms; the loop state is the local
    [num_identities]. *)
Definition identity_step (p : Term) (num_identities : Z) : Method Z :=
  if is_identity p.2 then
    let num_identities := (num_identities + 1)%Z in
    if (1 <? num_identities)%Z then
      raise (RuntimeError "Multiple identity pauli terms are present.")
    else
      assign (set_ancilla_phase_coef (real_part p.1));;
      mret num_identities
  else mret num_identities.

(** [x / lmax] for the Python float [x]: [lmax], the value of
    [sum([abs(p[0]) for p in paulis])], is a [numpy.float64] as soon as
    one coefficient is a numpy scalar, and a Python number otherwise (the
    integer [0] for no term at all). *)
Definition truediv_lmax (x : R) (paulis : list Term) : Result Float64 :=
  let lmax := sum (map (fun p : Term => abs p.1) paulis) in
  if existsb (fun p : Term => numpy_scalar p.1) paulis
  then Return (np_truediv x lmax)
  else t ← truediv x lmax; mret (Finite t).

(** [self._operator._check_representation('paulis')] is the operator's
    own conversion; the operator is held in its Pauli representation. *)
Definition _init_constants : Method unit :=
  self ← get;
  let paulis := paulis (_operator self) in
  match _evo_time self with
  | None =>
      if negb (_negative_evals self) then
        t ← lift (truediv_lmax
                    ((1 - pow2 (- _num_ancillae self)) * 2 * PI)%R paulis);
        assign (set_evo_time t)
      else
        t ← lift (truediv_lmax
                    ((1 / 2 - pow2 (- _num_ancillae self)) * 2 * PI)%R paulis);
        assign (set_evo_time t)
  | Some _ => mret tt
  end;;
  for_ paulis identity_step 0%Z;;
  mret tt.

Definition __init__ (args : QPEArgs) : Result QPE :=
  validate args;;
  let self :=
    {| _num_ancillae := arg_num_ancillae args; _iqft := arg_iqft args;
       _operator := arg_operator args;
       _num_time_slices := arg_num_time_slices args;
       _expansion_mode := arg_expansion_mode args;
       _expansion_order := arg_expansion_order args;
       _evo_time := arg_evo_time args;
       _use_basis_gates := arg_use_basis_gates args;
       _hermitian_matrix := arg_hermitian_matrix args;
       _negative_evals := arg_negative_evals args;
       _ne_qfts := arg_ne_qfts args;
       _ancilla_phase_coef := None; _ret := None; _circuit := None;
       _output_register := None; _input_register := None |} in
  match _init_constants self with
  | (Return _, self) => Return (set_ret ∅ self)
  | (Raise e, _) => Raise e
  end.

Definition get_register_sizes (self : QPE) : Z * Z :=
  (num_qubits (_operator self), _num_ancillae self).

Definition get_scaling (self : QPE) : option Float64 := _evo_time self.

(** [component.construct_circuit('circuit', qs, qc)], the result dropped:
    the caller goes on with [qc], to which the component has appended. *)
Definition call_construct_circuit (component : option QFT) (qs : Register)
  (qc : Circuit) : Result Circuit :=
  match component with
  | None => Raise AttributeError
  | Some c =>
      out ← qft_construct_circuit c "circuit" (Some qs) (Some qc);
      match out with
      | OutCircuit qc' => Return qc'
      | OutMatrix _ => Return qc
      end
  end.

Definition _handle_negative_evals (self : QPE) (qc : Circuit) (q : Register)
  : Result Circuit :=
  sgn ← getitem q 0;
  qs ← mapM (getitem q) (range 1 (Z.of_nat (length q)));
  qc ← for_ qs (fun qi qc => mret (cx sgn qi qc)) qc;
  ne0 ← getitem (_ne_qfts self) 0;
  qc ← call_construct_circuit ne0 qs qc;
  qc ← for_ (enumerate (reversed qs))
         (fun iq qc =>
            d ← float_pow2 (iq.1 + 1);
            theta ← truediv (2 * PI) d;
            mret (cu1 theta sgn iq.2 qc)) qc;
  ne1 ← getitem (_ne_qfts self) 1;
  call_construct_circuit ne1 qs qc.

Definition construct_circuit (mode : string) (register : option Register)
  : Method Circuit :=
  self ← get;
  pe ← lift (PhaseEstimation_new
               {| pe_operator := _operator self;
                  pe_iqft := _iqft self;
                  pe_num_time_slices := _num_time_slices self;
                  pe_num_ancillae := _num_ancillae self;
                  pe_expansion_mode := _expansion_mode self;
                  pe_expansion_order := _expansion_order self;
                  pe_evo_time := _evo_time self |});
  if String.eqb mode "vector" then
    raise (ValueError "QPE only posslible as circuit not vector.")
  else
    a ← lift (QuantumRegister (_num_ancillae self) None);
    let q := register in
    qc ← lift (PhaseEstimation_construct_circuit pe q a);
    qc ← (if _negative_evals self
          then lift (_handle_negative_evals self qc a)
          else mret qc);
    assign (set_circuit qc a q);;
    mret qc.

(** The extension of a matrix that is not Hermitian, lines 145 to 150 of
    [init_params]: the locals [negative_evals] and [matrix] after it. *)
Definition hermitian_extension (hermitian_matrix negative_evals : bool)
  (matrix : Matrix) : Result (bool * Matrix) :=
  if negb hermitian_matrix then
    let negative_evals := true in
    let n := (shape matrix).1 in
    let new_matrix := zeros (2 * n) (2 * n) in
    new_matrix ← setitem_block new_matrix n 0 n n (getH matrix);
    new_matrix ← setitem_block new_matrix 0 n n n matrix;
    mret (negative_evals, new_matrix)
  else mret (negative_evals, matrix).

(** The two additional QFTs, lines 161 to 175 of [init_params]: the
    entry [ne_qfts] of [args] and the parameters dictionary after it.
    [ne_params], [ne_qft_params] and [ne_iqft_params] are other names of
    [params] and of its sections [qft] and [iqft]. *)
Definition negative_evals_qfts (negative_evals : bool) (params : Params)
  : Result (list (option QFT) * Params) :=
  if negative_evals then
    qft_num_qubits ← dict_getitem (iqft params) "num_qubits";
    n1 ← value_sub qft_num_qubits 1;
    let params := set_qft (<["num_qubits" := n1]> (qft params)) params in
    n1 ← value_sub qft_num_qubits 1;
    let params := set_iqft (<["num_qubits" := n1]> (iqft params)) params in
    qft_name ← dict_getitem (qft params) "name";
    ne0 ← pluggable_init_params QFT_TYPE qft_name params;
    iqft_name ← dict_getitem (iqft params) "name";
    ne1 ← pluggable_init_params IQFT_TYPE iqft_name params;
    mret ([Some ne0; Some ne1], params)
  else mret ([None; None], params).

(** [init_params(cls, params, matrix)]: the object built, and the
    parameters dictionary as the call leaves it. *)
Definition init_params (params : Params) (matrix : option Matrix)
  : Result (QPE * Params) :=
  match matrix with
  | None => Raise (AquaError "Operator instance is required.")
  | Some matrix =>
      let eigs_params := eigs params in
      let args := args_of_eigs eigs_params in
      let num_ancillae := eigs_num_ancillae eigs_params in
      let hermitian_matrix := eigs_hermitian_matrix eigs_params in
      let negative_evals := eigs_negative_evals eigs_params in
      let args :=
        if negative_evals then
          let num_ancillae := (num_ancillae + 1)%Z in
          kw_set_num_ancillae num_ancillae args
        else args in
      '(negative_evals, matrix) ←
        hermitian_extension hermitian_matrix negative_evals matrix;
      operator ← Operator_of_matrix matrix;
      let args := kw_set_operator operator args in
      let params :=
        set_iqft (<["num_qubits" := VInt (eigs_num_ancillae eigs_params)]>
                    (iqft params)) params in
      iqft_name ← dict_getitem (iqft params) "name";
      component ← pluggable_init_params IQFT_TYPE iqft_name params;
      let args := kw_set_iqft component args in
      '(ne_qfts, params) ← negative_evals_qfts negative_evals params;
      let args := kw_set_ne_qfts ne_qfts args in
      bound ← bind_args args;
      self ← __init__ bound;
      mret (self, params)
  end.

End QPE.
End QPE.

(** ** Vocabulary of the statements *)

(** The qubit at index [j] of a register. *)
Definition qubit (register : Register) (j : Z) : Qubit :=
  nth (Z.to_nat j) register (EmptyString, 0%nat).

(** The window [[max(0, j - num_qubits + degree + 1), j)] of qubit [j]. *)
Definition aqft_window (num_qubits degree j : Z) : list Z :=
  range (Z.max 0 (j - num_qubits + degree + 1)) j.

(** What the approximate QFT does at qubit [j]: a Hadamard on [j], then a
    controlled phase of angle [-pi / 2^(j-k)] from [j] to each [k] of the
    window, nearest first. *)
Definition aqft_block (num_qubits degree : Z) (register : Register) (j : Z)
  : list Gate :=
  H (qubit register j)
  :: map (fun k => CU1 (- PI / pow2 (j - k)) (qubit register j)
                    (qubit register k))
       (rev (aqft_window num_qubits degree j)).

(** The blocks of the qubits, most significant first. *)
Definition aqft_gates (num_qubits degree : Z) (register : Register)
  : list Gate :=
  concat (map (aqft_block num_qubits degree register)
            (rev (range 0 num_qubits))).

(** No window of the approximate QFT spans 1024 positions or more: the
    widest window, that of the most significant qubit, spans
    [min(num_qubits - 1, num_qubits - 1 - degree)] positions. *)
Definition windows_below_1024 (num_qubits degree : Z) : Prop :=
  (num_qubits <= 1024 \/ num_qubits - degree <= 1024)%Z.

(** A register of [n] qubits named [q]. *)
Definition example_register (n : nat) : list Qubit :=
  map (fun i => ("q", i)) (seq 0 n).

(** One Hadamard per qubit, most significant first. *)
Definition hadamards (num_qubits : Z) (register : Register) : list Gate :=
  map (fun j => H (qubit register j)) (rev (range 0 num_qubits)).

(** A controlled phase for every pair [(j, k)] with [k < j]. *)
Definition full_connectivity (num_qubits : Z) (register : Register)
  (gates : list Gate) : Prop :=
  forall j k : Z, (0 <= k < j)%Z -> (j < num_qubits)%Z ->
    exists theta, CU1 theta (qubit register j) (qubit register k) ∈ gates.

Definition no_cu1 (gates : list Gate) : Prop :=
  Forall (fun g => is_cu1 g = false) gates.

(** The gates circuit mode puts on an empty circuit over [register]. *)
Definition emitted `{Terra} (self : Approximate.Approximate)
  (register : Register) : option (list Gate) :=
  match Approximate.construct_circuit self "circuit" (Some register) None with
  | Return (OutCircuit c) => Some c
  | _ => None
  end.

(** The two extremes of the degree as the specification words them:
    degree [num_qubits] is fully connected, degree [0] is Hadamards only. *)
Definition degree_extremes_as_specified `{Terra} (num_qubits : Z)
  (register : Register) : Prop :=
  (exists gates,
      emitted {| Approximate._num_qubits := num_qubits;
                 Approximate._degree := num_qubits |} register = Some gates
      /\ full_connectivity num_qubits register gates)
  /\ (exists gates,
        emitted {| Approximate._num_qubits := num_qubits;
                   Approximate._degree := 0 |} register = Some gates
        /\ gates = hadamards num_qubits register /\ no_cu1 gates).

(** Circuit mode as the specification words it, for one qubit count,
    degree and register: the blocks of all qubits are emitted. *)
Definition circuit_mode_as_specified `{Terra} (num_qubits degree : Z)
  (register : Register) : Prop :=
  emitted {| Approximate._num_qubits := num_qubits;
             Approximate._degree := degree |} register
  = Some (aqft_gates num_qubits degree register).

(** [lmax]: the sum of the absolute values of the coefficients. *)
Definition lmax (operator : Operator) : R :=
  sum (map (fun p : Term => abs p.1) (paulis operator)).

(** [lmax] is a [numpy.float64] as soon as one coefficient is a numpy
    scalar, and a Python number otherwise ([sum] starts from the Python
    integer [0]). *)
Definition numpy_lmax (operator : Operator) : bool :=
  existsb (fun p : Term => numpy_scalar p.1) (paulis operator).


(** The all-identity terms of an operator, in order. *)
Definition identity_terms (operator : Operator) : list Term :=
  List.filter (fun p : Term => QPE.is_identity p.2) (paulis operator).


(** The evolution time [_init_constants] derives for [a] ancillae from
    the bound [L], and the numerator of that quotient. *)
Definition derived_evo_time (negative_evals : bool) (a : Z) (L : R) : R :=
  if negative_evals
  then ((1 / 2 - pow2 (- a)) * 2 * PI / L)%R
  else ((1 - pow2 (- a)) * 2 * PI / L)%R.

Definition evo_time_numerator (negative_evals : bool) (a : Z) : R :=
  if negative_evals
  then ((1 / 2 - pow2 (- a)) * 2 * PI)%R
  else ((1 - pow2 (- a)) * 2 * PI)%R.

(** The end of a method that returns nothing: the value of its last
    statement is dropped. *)
Definition dropped {A S} (r : Result A * S) : Result unit * S :=
  match r with
  | (Return _, s) => (Return tt, s)
  | (Raise e, s) => (Raise e, s)
  end.

Definition multiple_identities : Exception :=
  RuntimeError "Multiple identity pauli terms are present.".


(** A stand-in for qiskit and scipy in closed examples: registers are
    made of [size] qubits, the DFT matrix is left out. *)
Definition terra_stub : Terra :=
  {| QuantumRegister size name :=
       if (size <=? 0)%Z then Raise (Foreign "register size must be positive")
       else Return (map (fun i => (default "q" name, i))
                      (seq 0 (Z.to_nat size)));
     linalg_dft _ _ := Raise (Foreign "scipy.linalg.dft") |}.

Definition vector_mode_unsupported : Exception :=
  ValueError "QPE only posslible as circuit not vector.".

(** The arguments [construct_circuit] hands to [PhaseEstimation]. *)
Definition phase_estimation_args (self : QPE.QPE) : PhaseEstimationArgs :=
  {| pe_operator := QPE._operator self;
     pe_iqft := QPE._iqft self;
     pe_num_time_slices := QPE._num_time_slices self;
     pe_num_ancillae := QPE._num_ancillae self;
     pe_expansion_mode := QPE._expansion_mode self;
     pe_expansion_order := QPE._expansion_order self;
     pe_evo_time := QPE._evo_time self |}.

(** The correction for negative eigenvalues, in the words of the
    specification: the controlled-NOTs from the sign qubit to the
    magnitude qubits, and the controlled phases of angle [2 pi / 2^(k+1)]
    on the [k]-th magnitude qubit in reverse order. *)
Definition sign_cnots (sgn : Qubit) (qs : Register) : list Gate :=
  map (fun qi => CX sgn qi) qs.

Definition sign_phases (sgn : Qubit) (qs : Register) : list Gate :=
  map (fun kq : Z * Qubit => CU1 (2 * PI / pow2 (kq.1 + 1)) sgn kq.2)
    (enumerate (rev qs)).

(** The correction as the specification words it, for one builder and
    one register argument: whenever the collaborators return and the two
    components append [g0] and [g1], the circuit returned is the
    phase-estimation circuit followed by the four parts. *)
Definition correction_as_specified `{Terra, Aqua} (self : QPE.QPE)
  (register : option Register) : Prop :=
  forall (pe : PhaseEstimation) (sgn : Qubit) (qs : Register) (qc : Circuit)
    (f0 f1 : QFT) (rest : list (option QFT)) (g0 g1 : list Gate),
    QPE._negative_evals self = true ->
    PhaseEstimation_new (phase_estimation_args self) = Return pe ->
    QuantumRegister (QPE._num_ancillae self) None = Return (sgn :: qs) ->
    PhaseEstimation_construct_circuit pe register (sgn :: qs) = Return qc ->
    QPE._ne_qfts self = Some f0 :: Some f1 :: rest ->
    qft_construct_circuit f0 "circuit" (Some qs)
      (Some (qc ++ sign_cnots sgn qs))
    = Return (OutCircuit ((qc ++ sign_cnots sgn qs) ++ g0)) ->
    qft_construct_circuit f1 "circuit" (Some qs)
      (Some (((qc ++ sign_cnots sgn qs) ++ g0) ++ sign_phases sgn qs))
    = Return (OutCircuit
                ((((qc ++ sign_cnots sgn qs) ++ g0) ++ sign_phases sgn qs)
                 ++ g1)) ->
    (QPE.construct_circuit "circuit" register self).1
    = Return (qc ++ sign_cnots sgn qs ++ g0 ++ sign_phases sgn qs ++ g1).

(** The all-identity Pauli string on [n] qubits. *)
Definition identity_pauli (n : nat) : Pauli :=
  {| z := replicate n false; x := replicate n false |}.

(** Objects for closed examples: a builder with two ancillae over the
    given terms, as [__init__] leaves it before [_init_constants]. *)
Definition example_iqft : QFT :=
  @Approximate.as_QFT terra_stub
    {| Approximate._num_qubits := 2; Approximate._degree := 0 |}.

Definition example_qpe (terms : list Term) (evo_time : option R)
  (negative_evals : bool) (ne_qfts : list (option QFT)) : QPE.QPE :=
  {| QPE._num_ancillae := 2; QPE._iqft := example_iqft;
     QPE._operator := {| paulis := terms; num_qubits := 1 |};
     QPE._num_time_slices := 1; QPE._expansion_mode := "trotter";
     QPE._expansion_order := 1; QPE._evo_time := Finite <$> evo_time;
     QPE._use_basis_gates := true; QPE._hermitian_matrix := true;
     QPE._negative_evals := negative_evals; QPE._ne_qfts := ne_qfts;
     QPE._ancilla_phase_coef := None; QPE._ret := None;
     QPE._circuit := None; QPE._output_register := None;
     QPE._input_register := None |}.

(** A stand-in for the rest of aqua in closed examples: every matrix is
    read as one identity term, the phase-estimation circuit is a single
    opaque gate on the two registers, validation passes, and the registry
    holds approximate QFTs sized by [num_qubits] of their section. *)
Definition aqua_stub : Aqua :=
  {| Operator_of_matrix m :=
       Return {| paulis := [(PyFloat 1, identity_pauli 1)];
                 num_qubits := 1 |};
     PhaseEstimation := PhaseEstimationArgs;
     PhaseEstimation_new args := Return args;
     PhaseEstimation_construct_circuit pe q a :=
       Return [U "phase_estimation" [] (default [] q ++ a)];
     validate _ := Return tt;
     pluggable_init_params ty name params :=
       let section := match ty with
                      | IQFT_TYPE => iqft params
                      | QFT_TYPE => qft params
                      end in
       match section !! "num_qubits" with
       | Some (VInt n) =>
           Return (@Approximate.as_QFT terra_stub
                     {| Approximate._num_qubits := n;
                        Approximate._degree := 0 |})
       | _ => Raise (KeyError "num_qubits")
       end |}.

(** Parameters for closed examples: the [eigs] section with the given
    ancilla count and flags, no evolution time, and approximate QFTs. *)
Definition example_params (num_ancillae : Z)
  (hermitian_matrix negative_evals : bool) : Params :=
  {| eigs := {| eigs_name := "QPE"; eigs_num_time_slices := 1;
                eigs_expansion_mode := "trotter"; eigs_expansion_order := 1;
                eigs_num_ancillae := num_ancillae; eigs_evo_time := None;
                eigs_use_basis_gates := true;
                eigs_hermitian_matrix := hermitian_matrix;
                eigs_negative_evals := negative_evals |};
     iqft := {[ "name" := VStr "APPROXIMATE" ]};
     qft := {[ "name" := VStr "APPROXIMATE" ]} |}.

(** The approximate QFT on [n] qubits the stand-in registry hands out. *)
Definition stub_qft (n : Z) : QFT :=
  @Approximate.as_QFT terra_stub
    {| Approximate._num_qubits := n; Approximate._degree := 0 |}.

(** The qubits [1 .. n] of a register named [q]: the magnitude qubits
    of [n + 1] ancillae. *)
Definition magnitude_register (n : nat) : list Qubit :=
  map (fun i => ("q", i)) (seq 1 n).

(** A builder with negative eigenvalues for closed examples:
    [num_ancillae] ancillae, the sign qubit among them, and two
    approximate QFTs of degree 0 on the magnitude qubits. *)
Definition example_signed_qpe (num_ancillae : Z) : QPE.QPE :=
  {| QPE._num_ancillae := num_ancillae; QPE._iqft := stub_qft num_ancillae;
     QPE._operator := {| paulis := [(PyFloat 1, identity_pauli 1)];
                         num_qubits := 1 |};
     QPE._num_time_slices := 1; QPE._expansion_mode := "trotter";
     QPE._expansion_order := 1; QPE._evo_time := Some (Finite 1);
     QPE._use_basis_gates := true; QPE._hermitian_matrix := true;
     QPE._negative_evals := true;
     QPE._ne_qfts := [Some (stub_qft (num_ancillae - 1));
                      Some (stub_qft (num_ancillae - 1))];
     QPE._ancilla_phase_coef := None; QPE._ret := None;
     QPE._circuit := None; QPE._output_register := None;
     QPE._input_register := None |}.

(** Two objects with the same ancilla count, flag and components. *)
Definition same_configuration (s s' : QPE.QPE) : Prop :=
  QPE._num_ancillae s = QPE._num_ancillae s'
  /\ QPE._negative_evals s = QPE._negative_evals s'
  /\ QPE._operator s = QPE._operator s'
  /\ QPE._iqft s = QPE._iqft s'
  /\ QPE._ne_qfts s = QPE._ne_qfts s'.

(** The object [self] with the two attributes [_init_constants] assigns
    replaced. *)
Definition with_constants (evo_time : option Float64)
  (ancilla_phase_coef : option R) (self : QPE.QPE) : QPE.QPE :=
  {| QPE._num_ancillae := QPE._num_ancillae self;
     QPE._iqft := QPE._iqft self;
     QPE._operator := QPE._operator self;
     QPE._num_time_slices := QPE._num_time_slices self;
     QPE._expansion_mode := QPE._expansion_mode self;
     QPE._expansion_order := QPE._expansion_order self;
     QPE._evo_time := evo_time;
     QPE._use_basis_gates := QPE._use_basis_gates self;
     QPE._hermitian_matrix := QPE._hermitian_matrix self;
     QPE._negative_evals := QPE._negative_evals self;
     QPE._ne_qfts := QPE._ne_qfts self;
     QPE._ancilla_phase_coef := ancilla_phase_coef;
     QPE._ret := QPE._ret self;
     QPE._circuit := QPE._circuit self;
     QPE._output_register := QPE._output_register self;
     QPE._input_register := QPE._input_register self |}.

(** Constructor arguments for closed examples: one identity term, three
    ancillae, every other parameter at its default. *)
Definition example_args (evo_time : option R) (negative_evals : bool)
  : QPEArgs :=
  {| arg_operator := {| paulis := [(PyFloat 1, identity_pauli 1)];
                        num_qubits := 1 |};
     arg_iqft := stub_qft 3;
     arg_num_time_slices := 1; arg_num_ancillae := 3;
     arg_expansion_mode := "trotter"; arg_expansion_order := 1;
     arg_evo_time := Finite <$> evo_time; arg_use_basis_gates := true;
     arg_hermitian_matrix := true; arg_negative_evals := negative_evals;
     arg_ne_qfts := [None; None] |}.

(** Reading a key of a dictionary given by its entries. *)
Ltac dict_lookup :=
  unfold dict_getitem;
  repeat first
    [ rewrite lookup_insert_eq
    | rewrite lookup_insert_ne by done
    | rewrite lookup_singleton_eq ];
  cbn -[QPE._init_constants insert lookup].

(** * Properties *)

(** ** Results, loops, indexing *)

Lemma truediv_nonzero (x y : R) : y <> 0%R -> truediv x y = Return (x / y)%R.
Proof.
  intros Hy. unfold truediv. destruct (Req_dec_T y 0); [contradiction | reflexivity].
Qed.

Lemma truediv_zero (x : R) : truediv x 0 = Raise ZeroDivisionError.
Proof.
  unfold truediv. destruct (Req_dec_T 0 0) as [_ | Hne]; [reflexivity | ].
  exfalso. apply Hne. reflexivity.
Qed.

Lemma pow2_nonzero (e : Z) : pow2 e <> 0%R.
Proof. unfold pow2. apply powerRZ_NOR. lra. Qed.

Lemma float_pow2_below (e : Z) :
  (e < 1024)%Z -> float_pow2 e = Return (pow2 e).
Proof.
  intros He. unfold float_pow2.
  destruct (Z.leb_spec 1024 e); [lia | reflexivity].
Qed.

Lemma float_pow2_overflow (e : Z) :
  (1024 <= e)%Z -> float_pow2 e = Raise OverflowError.
Proof.
  intros He. unfold float_pow2.
  destruct (Z.leb_spec 1024 e); [reflexivity | lia].
Qed.

Lemma elem_of_range (lo hi k : Z) : k ∈ range lo hi <-> (lo <= k < hi)%Z.
Proof.
  unfold range. rewrite list_elem_of_fmap. split.
  - intros (i & -> & Hi). apply elem_of_seq in Hi. lia.
  - intros Hk. exists (Z.to_nat (k - lo)). split; [lia | ].
    apply elem_of_seq. lia.
Qed.

Lemma elem_of_rev {A} (a : A) (l : list A) : a ∈ rev l <-> a ∈ l.
Proof. rewrite !list_elem_of_In. symmetry. apply in_rev. Qed.

Lemma lookup_map {A B} (f : A -> B) (l : list A) (i : nat) :
  map f l !! i = f <$> l !! i.
Proof.
  revert i. induction l as [| a l IH]; intros [| i]; simpl; auto.
Qed.

Lemma length_range (lo hi : Z) : length (range lo hi) = Z.to_nat (hi - lo).
Proof. unfold range. rewrite length_map, length_seq. reflexivity. Qed.

Lemma range_empty (lo hi : Z) : (hi <= lo)%Z -> range lo hi = [].
Proof.
  intros Hle. unfold range. replace (Z.to_nat (hi - lo)) with 0%nat by lia.
  reflexivity.
Qed.

Lemma range_cons (lo hi : Z) :
  (lo < hi)%Z -> range lo hi = lo :: range (lo + 1) hi.
Proof.
  intros Hlt. unfold range.
  replace (Z.to_nat (hi - lo)) with (S (Z.to_nat (hi - (lo + 1)))) by lia.
  simpl. f_equal; [lia | ].
  rewrite <- seq_shift, map_map. apply map_ext. intros i. lia.
Qed.

Lemma range_app (lo mid hi : Z) :
  (lo <= mid <= hi)%Z -> range lo hi = range lo mid ++ range mid hi.
Proof.
  intros Hle. remember (Z.to_nat (mid - lo)) as n eqn:Hn.
  revert lo Hle Hn. induction n as [| n IH]; intros lo Hle Hn.
  - replace mid with lo by lia. rewrite (range_empty lo lo) by lia. reflexivity.
  - rewrite (range_cons lo hi), (range_cons lo mid) by lia.
    rewrite (IH (lo + 1)%Z) by lia. reflexivity.
Qed.

Lemma range_snoc (hi : Z) :
  (0 <= hi)%Z -> range 0 (hi + 1) = range 0 hi ++ [hi].
Proof.
  intros Hhi. rewrite (range_app 0 hi (hi + 1)) by lia.
  rewrite (range_cons hi (hi + 1)), (range_empty (hi + 1)) by lia. reflexivity.
Qed.

Lemma range_split (lo k hi : Z) :
  (lo <= k < hi)%Z -> range lo hi = range lo k ++ k :: range (k + 1) hi.
Proof.
  intros Hk. rewrite (range_app lo k hi) by lia.
  rewrite (range_cons k hi) by lia. reflexivity.
Qed.

Lemma getitem_qubit (register : Register) (j : Z) :
  (0 <= j < Z.of_nat (length register))%Z ->
  getitem register j = Return (qubit register j).
Proof.
  intros Hj. unfold getitem, qubit.
  assert (Hpos : (j <? 0)%Z = false) by lia.
  rewrite Hpos. cbv zeta. rewrite Hpos.
  destruct (lookup_lt_is_Some_2 register (Z.to_nat j)) as [q Hq]; [lia | ].
  rewrite Hq. rewrite nth_lookup, Hq. reflexivity.
Qed.

(** A loop whose every pass appends to the state appends the passes'
    contributions in order. *)
Lemma for_appends {A B} (g : A -> list B) (body : A -> list B -> Result (list B))
  (xs : list A) :
  (forall a s, a ∈ xs -> body a s = Return (s ++ g a)) ->
  forall s, for_ xs body s = Return (s ++ concat (map g xs)).
Proof.
  induction xs as [| a xs IH]; intros Hbody s; simpl.
  - rewrite app_nil_r. reflexivity.
  - rewrite Hbody by left. simpl.
    rewrite IH by (intros; apply Hbody; right; assumption).
    rewrite app_assoc. reflexivity.
Qed.

(** A loop stops at the first pass that raises. *)
Lemma for_raises {A S} (body : A -> S -> Result S) (xs ys : list A) (x : A)
  (s s' : S) (e : Exception) :
  for_ xs body s = Return s' -> body x s' = Raise e ->
  for_ (xs ++ x :: ys) body s = Raise e.
Proof.
  revert s. induction xs as [| a xs IH]; intros s Hxs Hx; simpl in *.
  - injection Hxs as <-. rewrite Hx. reflexivity.
  - destruct (body a s) as [s1 | e1]; simpl in *; [| discriminate].
    apply IH; assumption.
Qed.

Lemma concat_map_singleton {A B} (f : A -> B) (l : list A) :
  concat (map (fun a => [f a]) l) = map f l.
Proof. induction l as [| a l IH]; simpl; [reflexivity | rewrite IH; reflexivity]. Qed.

(** ** The approximate QFT, circuit mode *)

Section ApproximateProperties.
Context `{Terra}.

Lemma cu1_step_ok (register : Register) (j k : Z) (circuit : Circuit) :
  (0 <= k < j)%Z -> (j < Z.of_nat (length register))%Z ->
  (j - k < 1024)%Z ->
  Approximate.cu1_step register j k circuit
  = Return (circuit ++ [CU1 (- PI / pow2 (j - k)) (qubit register j)
                          (qubit register k)]).
Proof.
  intros Hk Hj Hspan. unfold Approximate.cu1_step.
  rewrite float_pow2_below by exact Hspan. cbn [mbind Result_bind].
  rewrite truediv_nonzero by apply pow2_nonzero. simpl.
  rewrite !getitem_qubit by lia. simpl. unfold cu1.
  replace (-1 * PI / pow2 (j - k))%R with (- PI / pow2 (j - k))%R
    by (unfold Rdiv; ring).
  reflexivity.
Qed.

Lemma h_step_ok (self : Approximate.Approximate) (register : Register)
  (j : Z) (circuit : Circuit) :
  (0 <= j < Z.of_nat (length register))%Z ->
  (j < 1024
   \/ Approximate._num_qubits self - Approximate._degree self <= 1024)%Z ->
  Approximate.h_step self register j circuit
  = Return (circuit ++ aqft_block (Approximate._num_qubits self)
                         (Approximate._degree self) register j).
Proof.
  intros Hj Hspan. unfold Approximate.h_step.
  rewrite getitem_qubit by lia. simpl.
  rewrite (for_appends
             (fun k => [CU1 (- PI / pow2 (j - k)) (qubit register j)
                          (qubit register k)])).
  - unfold h, aqft_block, aqft_window, reversed.
    rewrite concat_map_singleton, <- app_assoc. reflexivity.
  - intros k s Hk. unfold reversed in Hk.
    apply elem_of_rev, elem_of_range in Hk.
    apply cu1_step_ok; lia.
Qed.

(** From a span of 1024 positions on, [float(2 ** (j - k))] overflows:
    the pass of qubit [j] raises once its window reaches [j - 1024]. *)
Lemma cu1_step_overflow (register : Register) (j k : Z) (circuit : Circuit) :
  (1024 <= j - k)%Z ->
  Approximate.cu1_step register j k circuit = Raise OverflowError.
Proof.
  intros Hspan. unfold Approximate.cu1_step.
  rewrite float_pow2_overflow by exact Hspan. reflexivity.
Qed.

Lemma h_step_overflow (self : Approximate.Approximate) (register : Register)
  (j : Z) (circuit : Circuit) :
  (0 <= j < Z.of_nat (length register))%Z ->
  (1024 <= j)%Z ->
  (j < Approximate._num_qubits self)%Z ->
  (1024 < Approximate._num_qubits self - Approximate._degree self)%Z ->
  Approximate.h_step self register j circuit = Raise OverflowError.
Proof.
  intros Hj Hlarge Hn Hd. unfold Approximate.h_step.
  rewrite getitem_qubit by lia. simpl.
  rewrite (range_split _ (j - 1024) j) by lia.
  unfold reversed. rewrite rev_app_distr. simpl. rewrite <- app_assoc. simpl.
  apply (for_raises _ _ _ _ _
           (h (qubit register j) circuit
            ++ concat (map (fun k => [CU1 (- PI / pow2 (j - k))
                                        (qubit register j) (qubit register k)])
                         (rev (range (j - 1024 + 1) j))))).
  - apply (for_appends
             (fun k => [CU1 (- PI / pow2 (j - k)) (qubit register j)
                          (qubit register k)])).
    intros k s Hk. apply elem_of_rev, elem_of_range in Hk.
    apply cu1_step_ok; lia.
  - apply cu1_step_overflow. lia.
Qed.

Lemma construct_circuit_gates (self : Approximate.Approximate)
  (register : option Register) (circuit : option Circuit) (r : Register) :
  match register with
  | Some r' => r' = r
  | None => QuantumRegister (Approximate._num_qubits self) (Some "q") = Return r
  end ->
  (Approximate._num_qubits self <= Z.of_nat (length r))%Z ->
  windows_below_1024 (Approximate._num_qubits self)
    (Approximate._degree self) ->
  Approximate.construct_circuit self "circuit" register circuit
  = Return (OutCircuit
              (default [] circuit
               ++ aqft_gates (Approximate._num_qubits self)
                    (Approximate._degree self) r)).
Proof.
  intros Hr Hlen Hspan. unfold Approximate.construct_circuit. simpl.
  assert (Hreg : match register with
                 | Some r0 => Return r0
                 | None => QuantumRegister (Approximate._num_qubits self)
                             (Some "q")
                 end = Return r).
  { destruct register as [r' |]; [subst r'; reflexivity | exact Hr]. }
  rewrite Hreg. simpl.
  rewrite (for_appends (aqft_block (Approximate._num_qubits self)
                          (Approximate._degree self) r)).
  - simpl. unfold aqft_gates, reversed. destruct circuit; reflexivity.
  - intros j s Hj. unfold reversed in Hj.
    apply elem_of_rev, elem_of_range in Hj.
    apply h_step_ok; [lia | ]. destruct Hspan; [left; lia | right; lia].
Qed.

(** Outside these bounds the pass of the most significant qubit raises,
    and circuit mode with it. *)
Lemma construct_circuit_overflow (self : Approximate.Approximate)
  (register : option Register) (circuit : option Circuit) (r : Register) :
  match register with
  | Some r' => r' = r
  | None => QuantumRegister (Approximate._num_qubits self) (Some "q") = Return r
  end ->
  (Approximate._num_qubits self <= Z.of_nat (length r))%Z ->
  ~ windows_below_1024 (Approximate._num_qubits self)
      (Approximate._degree self) ->
  Approximate.construct_circuit self "circuit" register circuit
  = Raise OverflowError.
Proof.
  intros Hr Hlen Hspan. unfold windows_below_1024 in Hspan.
  unfold Approximate.construct_circuit. simpl.
  assert (Hreg : match register with
                 | None => QuantumRegister (Approximate._num_qubits self)
                             (Some "q")
                 | Some r0 => Return r0
                 end = Return r).
  { destruct register as [r' |]; [subst r'; reflexivity | exact Hr]. }
  rewrite Hreg. simpl.
  replace (Approximate._num_qubits self)
    with (Approximate._num_qubits self - 1 + 1)%Z at 1 by lia.
  rewrite range_snoc by lia. unfold reversed. rewrite rev_app_distr. simpl.
  rewrite h_step_overflow by lia. reflexivity.
Qed.

Lemma emitted_gates (self : Approximate.Approximate) (r : Register) :
  (Approximate._num_qubits self <= Z.of_nat (length r))%Z ->
  windows_below_1024 (Approximate._num_qubits self)
    (Approximate._degree self) ->
  emitted self r
  = Some (aqft_gates (Approximate._num_qubits self)
            (Approximate._degree self) r).
Proof.
  intros Hlen Hspan. unfold emitted.
  rewrite (construct_circuit_gates self (Some r) None r eq_refl Hlen Hspan).
  reflexivity.
Qed.

End ApproximateProperties.

(** With a degree of [num_qubits] or more every window is empty. *)
Lemma aqft_gates_high_degree (n d : Z) (r : Register) :
  (n <= d)%Z -> aqft_gates n d r = hadamards n r.
Proof.
  intros Hd. unfold aqft_gates, hadamards.
  rewrite <- (concat_map_singleton (fun j => H (qubit r j))). f_equal.
  apply map_ext_in. intros j Hj.
  apply in_rev, list_elem_of_In, elem_of_range in Hj.
  unfold aqft_block, aqft_window. rewrite range_empty by lia. reflexivity.
Qed.

(** With degree [0] the window of qubit [j] is all of [[0, j)]. *)
Lemma aqft_gates_degree_0 (n : Z) (r : Register) (j k : Z) :
  (0 <= k < j)%Z -> (j < n)%Z ->
  CU1 (- PI / pow2 (j - k)) (qubit r j) (qubit r k) ∈ aqft_gates n 0 r.
Proof.
  intros Hk Hj. unfold aqft_gates.
  apply list_elem_of_In, in_concat.
  exists (aqft_block n 0 r j). split.
  - apply in_map, in_rev. rewrite rev_involutive.
    apply list_elem_of_In, elem_of_range. lia.
  - unfold aqft_block, aqft_window. right.
    apply (in_map (fun k0 => CU1 (- PI / pow2 (j - k0)) (qubit r j) (qubit r k0))).
    apply in_rev. rewrite rev_involutive.
    apply list_elem_of_In, elem_of_range. lia.
Qed.

Lemma hadamards_no_cu1 (n : Z) (r : Register) : no_cu1 (hadamards n r).
Proof.
  unfold no_cu1, hadamards. apply Forall_forall. intros g Hg.
  apply list_elem_of_In, in_map_iff in Hg. destruct Hg as (j & <- & _).
  reflexivity.
Qed.

(** C5, as the code has it.  For every qubit count and degree with
    [num_qubits <= 1024] or [num_qubits - degree <= 1024], circuit mode
    appends to the circuit, for each qubit index [j] from the most
    significant to the least, a Hadamard on [j] followed by the controlled
    phases from [j] to the qubits [k] of the window
    [[max(0, j - num_qubits + degree + 1), j)], each of angle
    [-pi / 2^(j-k)]; this holds over a supplied register and over the
    register the method makes when none is supplied. *)
Theorem approximate_circuit_mode `{Terra} (self : Approximate.Approximate)
  (register : option Register) (circuit : option Circuit) (r : Register) :
  match register with
  | Some r' => r' = r
  | None => QuantumRegister (Approximate._num_qubits self) (Some "q") = Return r
  end ->
  (Approximate._num_qubits self <= Z.of_nat (length r))%Z ->
  (Approximate._num_qubits self <= 1024
   \/ Approximate._num_qubits self - Approximate._degree self <= 1024)%Z ->
  Approximate.construct_circuit self "circuit" register circuit
  = Return (OutCircuit
              (default [] circuit
               ++ concat
                    (map (fun j =>
                            H (qubit r j)
                            :: map (fun k => CU1 (- PI / pow2 (j - k))
                                              (qubit r j) (qubit r k))
                                 (rev (range
                                         (Z.max 0
                                            (j - Approximate._num_qubits self
                                             + Approximate._degree self + 1))
                                         j)))
                       (rev (range 0 (Approximate._num_qubits self)))))).
Proof.
  intros Hr Hlen Hspan.
  apply (construct_circuit_gates self register circuit r Hr Hlen Hspan).
Qed.

Lemma approximate_circuit_mode_witness :
  @Approximate.construct_circuit terra_stub
    {| Approximate._num_qubits := 3; Approximate._degree := 1 |}
    "circuit" None None
  = Return (OutCircuit
              ([] ++ aqft_gates 3 1 [("q", 0); ("q", 1); ("q", 2)]%nat)).
Proof.
  apply (@approximate_circuit_mode terra_stub
           {| Approximate._num_qubits := 3; Approximate._degree := 1 |}
           None None [("q", 0); ("q", 1); ("q", 2)]%nat).
  - reflexivity.
  - simpl. lia.
  - simpl. lia.
Defined.

Lemma length_example_register (n : nat) : length (example_register n) = n.
Proof. unfold example_register. rewrite length_map, length_seq. reflexivity. Qed.

(** C5, as the specification words it, fails on 1025 qubits with degree
    [0]: the phase from qubit 1024 to qubit 0 needs [float(2 ** 1024)],
    and circuit mode raises [OverflowError]. *)
Lemma approximate_circuit_mode_counterexample :
  ~ @circuit_mode_as_specified terra_stub 1025 0 (example_register 1025).
Proof.
  unfold circuit_mode_as_specified, emitted.
  rewrite (@construct_circuit_overflow terra_stub
             {| Approximate._num_qubits := 1025; Approximate._degree := 0 |}
             (Some (example_register 1025)) None (example_register 1025)
             eq_refl).
  - discriminate.
  - rewrite length_example_register. simpl. lia.
  - unfold windows_below_1024. simpl. lia.
Qed.

(** Three qubits, degree 1: the phase between qubits 2 and 0 is dropped. *)
Example three_qubits_degree_1 :
  @emitted terra_stub
    {| Approximate._num_qubits := 3; Approximate._degree := 1 |}
    [("q", 0); ("q", 1); ("q", 2)]%nat
  = Some [H ("q", 2%nat);
          CU1 (- PI / pow2 (2 - 1)) ("q", 2%nat) ("q", 1%nat);
          H ("q", 1%nat);
          CU1 (- PI / pow2 (1 - 0)) ("q", 1%nat) ("q", 0%nat);
          H ("q", 0%nat)].
Proof.
  rewrite (@emitted_gates terra_stub)
    by (unfold windows_below_1024; simpl; lia).
  reflexivity.
Qed.

(** C2, as the code has it.  For every qubit count up to 1024, circuit
    mode with degree [0] emits a controlled phase for every pair [(j, k)]
    with [k < j] (the connectivity of the exact QFT); from 1025 qubits on
    it raises [OverflowError] instead; and for every qubit count, with
    degree [num_qubits] it emits the per-qubit Hadamards and no controlled
    phase at all. *)
Theorem approximate_degree_extremes `{Terra} (n : Z) (r : Register) :
  (n <= Z.of_nat (length r))%Z ->
  ((n <= 1024)%Z ->
   exists gates,
     emitted {| Approximate._num_qubits := n; Approximate._degree := 0 |} r
     = Some gates
     /\ full_connectivity n r gates)
  /\ ((1024 < n)%Z ->
      Approximate.construct_circuit
        {| Approximate._num_qubits := n; Approximate._degree := 0 |}
        "circuit" (Some r) None
      = Raise OverflowError)
  /\ (exists gates,
        emitted {| Approximate._num_qubits := n; Approximate._degree := n |} r
        = Some gates
        /\ gates = hadamards n r /\ no_cu1 gates).
Proof.
  intros Hlen. split; [| split].
  - intros Hn. exists (aqft_gates n 0 r). split.
    + apply (emitted_gates {| Approximate._num_qubits := n;
                              Approximate._degree := 0 |} r Hlen).
      left. exact Hn.
    + intros j k Hk Hj. exists (- PI / pow2 (j - k))%R.
      apply aqft_gates_degree_0; assumption.
  - intros Hn.
    apply (construct_circuit_overflow
             {| Approximate._num_qubits := n; Approximate._degree := 0 |}
             (Some r) None r eq_refl Hlen).
    unfold windows_below_1024. simpl. lia.
  - exists (hadamards n r). split; [| split].
    + rewrite (emitted_gates {| Approximate._num_qubits := n;
                                Approximate._degree := n |} r Hlen)
        by (right; simpl; lia).
      simpl. rewrite aqft_gates_high_degree by lia. reflexivity.
    + reflexivity.
    + apply hadamards_no_cu1.
Qed.

Lemma approximate_degree_extremes_witness :
  (exists gates,
      @emitted terra_stub
        {| Approximate._num_qubits := 2; Approximate._degree := 0 |}
        [("q", 0); ("q", 1)]%nat = Some gates
      /\ full_connectivity 2 [("q", 0); ("q", 1)]%nat gates)
  /\ (exists gates,
        @emitted terra_stub
          {| Approximate._num_qubits := 2; Approximate._degree := 2 |}
          [("q", 0); ("q", 1)]%nat = Some gates
        /\ gates = hadamards 2 [("q", 0); ("q", 1)]%nat /\ no_cu1 gates).
Proof.
  destruct (@approximate_degree_extremes terra_stub 2
              [("q", 0); ("q", 1)]%nat) as (Hfull & _ & Hnone).
  - simpl. lia.
  - split; [apply Hfull; lia | exact Hnone].
Defined.

(** C2, as the specification words it, fails on two qubits: degree [2]
    emits two Hadamards and nothing between qubits 1 and 0. *)
Lemma approximate_degree_extremes_counterexample :
  ~ @degree_extremes_as_specified terra_stub 2 [("q", 0); ("q", 1)]%nat.
Proof.
  intros [(gates & Hem & Hfull) _].
  rewrite (@emitted_gates terra_stub) in Hem
    by (unfold windows_below_1024; simpl; lia).
  simpl in Hem. rewrite aqft_gates_high_degree in Hem by lia.
  injection Hem as <-.
  destruct (Hfull 1%Z 0%Z ltac:(lia) ltac:(lia)) as [theta Hin].
  pose proof (hadamards_no_cu1 2 [("q", 0); ("q", 1)]%nat) as Hno.
  unfold no_cu1 in Hno. rewrite Forall_forall in Hno.
  specialize (Hno _ Hin). discriminate Hno.
Qed.

(** ** The constants of the QPE builder *)

Section InitConstants.

(** Terms that are not the identity leave the scan where it is. *)
Lemma scan_identity_terms (ps : list Term) (k : Z) (self : QPE.QPE) :
  for_ (M := QPE.Method) ps QPE.identity_step k self
  = for_ (M := QPE.Method) (List.filter (fun p : Term => QPE.is_identity p.2) ps)
      QPE.identity_step k self.
Proof.
  revert k self. induction ps as [| p ps IH]; intros k self; [reflexivity | ].
  simpl. destruct (QPE.is_identity p.2) eqn:Hid.
  - simpl. unfold mbind, QPE.Method_bind.
    destruct (QPE.identity_step p k self) as [[k' | e] self']; [apply IH | reflexivity].
  - unfold mbind, QPE.Method_bind, QPE.identity_step. rewrite Hid. simpl. apply IH.
Qed.

Lemma identity_terms_are_identities (operator : Operator) (p : Term) :
  In p (identity_terms operator) -> QPE.is_identity p.2 = true.
Proof. unfold identity_terms. intros Hp. apply filter_In in Hp. tauto. Qed.

(** The scan, by the number of identity terms. *)
Lemma scan_outcome (operator : Operator) (self : QPE.QPE) :
  for_ (M := QPE.Method) (paulis operator) QPE.identity_step 0%Z self
  = match identity_terms operator with
    | [] => (Return 0%Z, self)
    | [p] =>
        (Return 1%Z, QPE.set_ancilla_phase_coef (QPE.real_part p.1) self)
    | p :: _ :: _ =>
        (Raise multiple_identities,
         QPE.set_ancilla_phase_coef (QPE.real_part p.1) self)
    end.
Proof.
  rewrite scan_identity_terms. fold (identity_terms operator).
  pose proof (identity_terms_are_identities operator) as Hid.
  destruct (identity_terms operator) as [| p [| p' rest]]; [reflexivity | | ].
  - specialize (Hid p (or_introl eq_refl)).
    simpl. unfold mbind, QPE.Method_bind, QPE.identity_step.
    rewrite Hid. reflexivity.
  - pose proof (Hid p (or_introl eq_refl)) as Hp.
    pose proof (Hid p' (or_intror (or_introl eq_refl))) as Hp'.
    simpl. unfold mbind, QPE.Method_bind, QPE.identity_step.
    rewrite Hp, Hp'. reflexivity.
Qed.

Lemma truediv_lmax_nonzero (x : R) (operator : Operator) :
  lmax operator <> 0%R ->
  QPE.truediv_lmax x (paulis operator)
  = Return (Finite (x / lmax operator)).
Proof.
  intros HL. unfold QPE.truediv_lmax. fold (lmax operator). cbv zeta.
  destruct (existsb _ _).
  - unfold np_truediv. destruct (Req_dec_T (lmax operator) 0); [contradiction | ].
    reflexivity.
  - rewrite truediv_nonzero by exact HL. reflexivity.
Qed.

Lemma truediv_lmax_zero (x : R) (operator : Operator) :
  lmax operator = 0%R ->
  QPE.truediv_lmax x (paulis operator)
  = if numpy_lmax operator then Return (np_truediv x 0)
    else Raise ZeroDivisionError.
Proof.
  intros HL. unfold QPE.truediv_lmax. fold (lmax operator). cbv zeta.
  fold (numpy_lmax operator). rewrite HL.
  destruct (numpy_lmax operator); [reflexivity | ].
  rewrite truediv_zero. reflexivity.
Qed.


(** The ways through the first half of [_init_constants]. *)
Lemma init_constants_supplied (self : QPE.QPE) (t : Float64) :
  QPE._evo_time self = Some t ->
  QPE._init_constants self
  = dropped (for_ (M := QPE.Method) (paulis (QPE._operator self))
               QPE.identity_step 0%Z self).
Proof.
  intros Ht. unfold QPE._init_constants, mbind, QPE.Method_bind, QPE.get.
  rewrite Ht. simpl.
  match goal with |- _ = dropped ?r => destruct r as [[k | e] self'] end;
    reflexivity.
Qed.

Lemma init_constants_derived (self : QPE.QPE) :
  QPE._evo_time self = None -> lmax (QPE._operator self) <> 0%R ->
  QPE._init_constants self
  = dropped (for_ (M := QPE.Method) (paulis (QPE._operator self))
               QPE.identity_step 0%Z
               (QPE.set_evo_time
                  (Finite
                     (derived_evo_time (QPE._negative_evals self)
                        (QPE._num_ancillae self) (lmax (QPE._operator self))))
                  self)).
Proof.
  intros Ht HL. unfold QPE._init_constants, mbind, QPE.Method_bind, QPE.get.
  rewrite Ht. unfold derived_evo_time.
  destruct (QPE._negative_evals self); cbn [negb];
    unfold QPE.lift; rewrite truediv_lmax_nonzero by exact HL;
    cbn -[QPE.identity_step];
    match goal with |- _ = dropped ?r => destruct r as [[k' | e] self'] end;
    reflexivity.
Qed.

(** A zero [lmax] of Python type: the division raises. *)
Lemma init_constants_zero_division (self : QPE.QPE) :
  QPE._evo_time self = None -> lmax (QPE._operator self) = 0%R ->
  numpy_lmax (QPE._operator self) = false ->
  QPE._init_constants self = (Raise ZeroDivisionError, self).
Proof.
  intros Ht HL Hpy. unfold QPE._init_constants, mbind, QPE.Method_bind, QPE.get.
  rewrite Ht.
  destruct (QPE._negative_evals self); cbn [negb];
    unfold QPE.lift; rewrite truediv_lmax_zero, Hpy by exact HL; reflexivity.
Qed.

(** A zero [lmax] of numpy type: the division returns an infinity or a
    nan, and the scan runs. *)
Lemma init_constants_numpy_zero (self : QPE.QPE) :
  QPE._evo_time self = None -> lmax (QPE._operator self) = 0%R ->
  numpy_lmax (QPE._operator self) = true ->
  QPE._init_constants self
  = dropped (for_ (M := QPE.Method) (paulis (QPE._operator self))
               QPE.identity_step 0%Z
               (QPE.set_evo_time
                  (np_truediv
                     (evo_time_numerator (QPE._negative_evals self)
                        (QPE._num_ancillae self)) 0)
                  self)).
Proof.
  intros Ht HL Hnp. unfold QPE._init_constants, mbind, QPE.Method_bind, QPE.get.
  rewrite Ht. unfold evo_time_numerator.
  destruct (QPE._negative_evals self); cbn [negb];
    unfold QPE.lift; rewrite truediv_lmax_zero, Hnp by exact HL;
    cbn -[QPE.identity_step];
    match goal with |- _ = dropped ?r => destruct r as [[k' | e] self'] end;
    reflexivity.
Qed.

(** The scan assigns nothing but the phase coefficient. *)
Lemma scan_keeps_evo_time (ps : list Term) (k : Z) (self : QPE.QPE) :
  QPE._evo_time (for_ (M := QPE.Method) ps QPE.identity_step k self).2 = QPE._evo_time self.
Proof.
  revert k self. induction ps as [| p ps IH]; intros k self; [reflexivity | ].
  simpl. unfold mbind, QPE.Method_bind, QPE.identity_step.
  destruct (QPE.is_identity p.2); simpl.
  - destruct (1 <? k + 1)%Z; simpl; [reflexivity | ].
    rewrite IH. reflexivity.
  - apply IH.
Qed.

Lemma dropped_state {A S} (r : Result A * S) : (dropped r).2 = r.2.
Proof. destruct r as [[a | e] s]; reflexivity. Qed.

(** When the evolution time needs no division by zero, the method is the
    scan, run on the object with its evolution time in place. *)
Lemma init_constants_scan (self : QPE.QPE) :
  QPE._evo_time self <> None \/ lmax (QPE._operator self) <> 0%R ->
  exists self',
    QPE._init_constants self
    = dropped (for_ (M := QPE.Method) (paulis (QPE._operator self))
                 QPE.identity_step 0%Z self')
    /\ QPE._ancilla_phase_coef self' = QPE._ancilla_phase_coef self
    /\ QPE._evo_time self'
       = match QPE._evo_time self with
         | Some t => Some t
         | None => Some (Finite
                           (derived_evo_time (QPE._negative_evals self)
                              (QPE._num_ancillae self)
                              (lmax (QPE._operator self))))
         end.
Proof.
  intros Hpre. destruct (QPE._evo_time self) as [t |] eqn:Ht.
  - exists self. rewrite (init_constants_supplied self t Ht). auto.
  - destruct Hpre as [Hc | HL]; [congruence | ].
    eexists. rewrite (init_constants_derived self Ht HL).
    split; [reflexivity | split; reflexivity].
Qed.




End InitConstants.



(** The same on the object the constructor returns. *)
Lemma constructed_scaling `{Aqua} (args : QPEArgs) (self : QPE.QPE) (L : R) :
  QPE.__init__ args = Return self ->
  lmax (arg_operator args) = L -> (0 < L)%R ->
  QPE.get_scaling self
  = Some match arg_evo_time args with
         | Some t => t
         | None => Finite (derived_evo_time (arg_negative_evals args)
                             (arg_num_ancillae args) L)
         end.
Proof.
  unfold QPE.__init__. intros Hinit HL Hpos.
  destruct (validate args) as [[] | e]; [| discriminate].
  cbn [mbind Result_bind] in Hinit.
  match type of Hinit with context [QPE._init_constants ?s] =>
    destruct (init_constants_scan s) as (s' & Hrun & _ & Hevo);
      [right; cbn; rewrite HL; lra | ];
    pose proof (f_equal snd Hrun) as Hstate;
    destruct (QPE._init_constants s) as [[[] | e] after]
  end; [| discriminate].
  injection Hinit as <-.
  cbn [snd] in Hstate. rewrite dropped_state in Hstate.
  unfold QPE.get_scaling, QPE.set_ret. cbn [QPE._evo_time].
  rewrite Hstate, scan_keeps_evo_time, Hevo. cbn. rewrite HL.
  destruct (arg_evo_time args); reflexivity.
Qed.






(** The worked example of the specification: one identity term of
    coefficient [1.0], two ancillae, no negative eigenvalues. *)
Example single_identity_term :
  QPE._init_constants
    (example_qpe [(PyFloat 1, identity_pauli 1)] None false [None; None])
  = (Return tt,
     QPE.set_ancilla_phase_coef 1
       (QPE.set_evo_time
          (Finite ((1 - pow2 (- 2)) * 2 * PI / (0 + Rabs 1)))
          (example_qpe [(PyFloat 1, identity_pauli 1)] None false
             [None; None]))).
Proof.
  rewrite init_constants_derived.
  - rewrite scan_outcome. reflexivity.
  - reflexivity.
  - unfold lmax, sum. simpl. rewrite Rabs_R1. lra.
Qed.

Example single_identity_term_evo_time :
  ((1 - pow2 (- 2)) * 2 * PI / (0 + Rabs 1) = 1.5 * PI)%R.
Proof.
  rewrite Rabs_R1. unfold pow2.
  replace (powerRZ 2 (- 2)) with (/ 4)%R by (unfold powerRZ; simpl; field).
  lra.
Qed.

(** ** Assembling the circuit *)

(** [[l[i] for i in range(len(pre), len(l))]] is [l] without [pre]. *)
Lemma mapM_getitem_suffix {A} (pre l : list A) :
  mapM (getitem (pre ++ l))
    (range (Z.of_nat (length pre)) (Z.of_nat (length (pre ++ l))))
  = Return l.
Proof.
  revert pre. induction l as [| a l IH]; intros pre.
  - rewrite app_nil_r, range_empty by lia. reflexivity.
  - assert (Hlt : (Z.of_nat (length pre) < Z.of_nat (length (pre ++ a :: l)))%Z)
      by (rewrite length_app, length_cons; lia).
    rewrite (range_cons _ _ Hlt).
    cbn [mapM].
    assert (Hhead : getitem (pre ++ a :: l) (Z.of_nat (length pre)) = Return a).
    { unfold getitem.
      assert (Hpos : (Z.of_nat (length pre) <? 0)%Z = false) by lia.
      rewrite Hpos. cbv zeta. rewrite Hpos.
      rewrite Nat2Z.id, list_lookup_middle by reflexivity. reflexivity. }
    rewrite Hhead. cbn [mbind Result_bind].
    specialize (IH (pre ++ [a])).
    rewrite <- app_assoc in IH. cbn [app] in IH.
    rewrite length_app in IH at 1. cbn [length] in IH.
    replace (Z.of_nat (length pre) + 1)%Z
      with (Z.of_nat (length pre + 1)) by lia.
    rewrite IH. reflexivity.
Qed.

(** The indices [enumerate] hands out. *)
Lemma elem_of_zip_range {A} (l : list A) (lo : Z) (kq : Z * A) :
  kq ∈ zip (range lo (lo + Z.of_nat (length l))) l ->
  (lo <= kq.1 < lo + Z.of_nat (length l))%Z.
Proof.
  destruct kq as [k q]. intros Hin. apply elem_of_zip_l in Hin.
  apply elem_of_range in Hin. exact Hin.
Qed.

Lemma elem_of_enumerate {A} (l : list A) (kq : Z * A) :
  kq ∈ enumerate l -> (0 <= kq.1 < Z.of_nat (length l))%Z.
Proof. intros Hin. apply (elem_of_zip_range l 0 kq), Hin. Qed.

Lemma enumerate_lookup {A} (l : list A) (i : nat) (a : A) :
  l !! i = Some a -> (Z.of_nat i, a) ∈ enumerate l.
Proof.
  intros Hi. unfold enumerate.
  enough (Hgen : forall (lo : Z) (l : list A) (i : nat),
             l !! i = Some a ->
             (lo + Z.of_nat i, a)%Z
             ∈ zip (range lo (lo + Z.of_nat (length l))) l)
    by exact (Hgen 0%Z l i Hi).
  clear. intros lo l. revert lo.
  induction l as [| b l IH]; intros lo [| i] Hi; try discriminate.
  - injection Hi as ->. rewrite range_cons by (cbn [length]; lia).
    cbn [zip zip_with]. replace (lo + Z.of_nat 0)%Z with lo by lia. left.
  - rewrite range_cons by (cbn [length]; lia). cbn [zip zip_with]. right.
    replace (lo + Z.of_nat (S i))%Z with (lo + 1 + Z.of_nat i)%Z by lia.
    replace (lo + Z.of_nat (length (b :: l)))%Z
      with (lo + 1 + Z.of_nat (length l))%Z by (cbn [length]; lia).
    apply IH. exact Hi.
Qed.

(** A loop whose passes can only raise [e] raises [e] as soon as one of
    its elements raises whatever the state. *)
Lemma for_raises_somewhere {A S} (body : A -> S -> Result S) (xs : list A)
  (e : Exception) :
  (forall a s, a ∈ xs -> body a s = Raise e \/ exists s', body a s = Return s') ->
  (exists a, a ∈ xs /\ forall s, body a s = Raise e) ->
  forall s, for_ xs body s = Raise e.
Proof.
  induction xs as [| a xs IH]; intros Hbody (b & Hb & Hraise) s.
  - apply elem_of_nil in Hb. contradiction.
  - simpl. destruct (Hbody a s ltac:(left)) as [-> | [s' Hs']]; [reflexivity | ].
    rewrite Hs'. simpl. apply elem_of_cons in Hb. destruct Hb as [-> | Hb].
    + rewrite Hraise in Hs'. discriminate.
    + apply IH.
      * intros a0 s0 Ha0. apply Hbody. right. exact Ha0.
      * exists b. split; assumption.
Qed.

Section ConstructCircuit.
Context `{Terra, Aqua}.

Lemma handle_negative_evals_gates (self : QPE.QPE) (qc : Circuit)
  (sgn : Qubit) (qs : Register) (f0 f1 : QFT) (rest : list (option QFT))
  (g0 g1 : list Gate) :
  (Z.of_nat (length qs) < 1024)%Z ->
  QPE._ne_qfts self = Some f0 :: Some f1 :: rest ->
  qft_construct_circuit f0 "circuit" (Some qs) (Some (qc ++ sign_cnots sgn qs))
  = Return (OutCircuit ((qc ++ sign_cnots sgn qs) ++ g0)) ->
  qft_construct_circuit f1 "circuit" (Some qs)
    (Some (((qc ++ sign_cnots sgn qs) ++ g0) ++ sign_phases sgn qs))
  = Return (OutCircuit
              ((((qc ++ sign_cnots sgn qs) ++ g0) ++ sign_phases sgn qs)
               ++ g1)) ->
  QPE._handle_negative_evals self qc (sgn :: qs)
  = Return ((((qc ++ sign_cnots sgn qs) ++ g0) ++ sign_phases sgn qs) ++ g1).
Proof.
  intros Hlen Hne Hf0 Hf1. unfold QPE._handle_negative_evals.
  change (getitem (sgn :: qs) 0) with (Return sgn). cbn [mbind Result_bind].
  assert (Hqs : mapM (getitem (sgn :: qs))
                  (range 1 (Z.of_nat (length (sgn :: qs)))) = Return qs)
    by exact (mapM_getitem_suffix [sgn] qs).
  rewrite Hqs. cbn [mbind Result_bind].
  rewrite (for_appends (fun qi => [CX sgn qi]))
    by (intros; reflexivity).
  cbn [mbind Result_bind]. rewrite concat_map_singleton.
  change (map (CX sgn) qs) with (sign_cnots sgn qs). rewrite Hne.
  change (getitem (Some f0 :: Some f1 :: rest) 0) with (Return (Some f0)).
  cbn [mbind Result_bind]. unfold QPE.call_construct_circuit.
  rewrite Hf0. cbn [mbind Result_bind].
  rewrite (for_appends
             (fun kq : Z * Qubit => [CU1 (2 * PI / pow2 (kq.1 + 1)) sgn kq.2])).
  2: { intros kq s Hkq. unfold reversed in Hkq.
       apply elem_of_enumerate in Hkq. rewrite length_rev in Hkq.
       rewrite float_pow2_below by lia. cbn [mbind Result_bind].
       rewrite truediv_nonzero by apply pow2_nonzero. reflexivity. }
  cbn [mbind Result_bind]. rewrite concat_map_singleton.
  unfold reversed. fold (sign_phases sgn qs).
  change (getitem (Some f0 :: Some f1 :: rest) 1) with (Return (Some f1)).
  cbn [mbind Result_bind].
  rewrite Hf1. reflexivity.
Qed.

(** From 1024 magnitude qubits on, the phase of the last of them needs
    [2 ** 1024] as a float: the correction raises after the first
    component has run. *)
Lemma handle_negative_evals_overflow (self : QPE.QPE) (qc : Circuit)
  (sgn : Qubit) (qs : Register) (f0 : QFT) (rest : list (option QFT))
  (c0 : Circuit) :
  (1024 <= Z.of_nat (length qs))%Z ->
  QPE._ne_qfts self = Some f0 :: rest ->
  qft_construct_circuit f0 "circuit" (Some qs) (Some (qc ++ sign_cnots sgn qs))
  = Return (OutCircuit c0) ->
  QPE._handle_negative_evals self qc (sgn :: qs) = Raise OverflowError.
Proof.
  intros Hlen Hne Hf0. unfold QPE._handle_negative_evals.
  change (getitem (sgn :: qs) 0) with (Return sgn). cbn [mbind Result_bind].
  assert (Hqs : mapM (getitem (sgn :: qs))
                  (range 1 (Z.of_nat (length (sgn :: qs)))) = Return qs)
    by exact (mapM_getitem_suffix [sgn] qs).
  rewrite Hqs. cbn [mbind Result_bind].
  rewrite (for_appends (fun qi => [CX sgn qi]))
    by (intros; reflexivity).
  cbn [mbind Result_bind]. rewrite concat_map_singleton.
  change (map (CX sgn) qs) with (sign_cnots sgn qs). rewrite Hne.
  change (getitem (Some f0 :: rest) 0) with (Return (Some f0)).
  cbn [mbind Result_bind]. unfold QPE.call_construct_circuit.
  rewrite Hf0. cbn [mbind Result_bind].
  rewrite (for_raises_somewhere _ _ OverflowError); [reflexivity | | ].
  - intros kq s _. unfold float_pow2.
    destruct (1024 <=? kq.1 + 1)%Z; [left; reflexivity | right].
    cbn [mbind Result_bind]. rewrite truediv_nonzero by apply pow2_nonzero.
    eexists. reflexivity.
  - unfold reversed.
    destruct (lookup_lt_is_Some_2 (rev qs) 1023) as [q Hq];
      [rewrite length_rev; lia | ].
    exists (1023%Z, q). split.
    + apply (enumerate_lookup (rev qs) 1023 q Hq).
    + intros s. rewrite float_pow2_overflow by (simpl; lia). reflexivity.
Qed.

(** Every mode other than ['vector'] takes the same path. *)
Lemma construct_circuit_not_vector (mode : string)
  (register : option Register) (self : QPE.QPE) :
  mode <> "vector" ->
  QPE.construct_circuit mode register self
  = QPE.construct_circuit "circuit" register self.
Proof.
  intros Hmode. unfold QPE.construct_circuit.
  apply String.eqb_neq in Hmode. rewrite Hmode. reflexivity.
Qed.

(** The circuit-mode path when the collaborators return. *)
Lemma construct_circuit_assembled (self : QPE.QPE)
  (register : option Register) (pe : PhaseEstimation) (a : Register)
  (qc qc' : Circuit) :
  PhaseEstimation_new (phase_estimation_args self) = Return pe ->
  QuantumRegister (QPE._num_ancillae self) None = Return a ->
  PhaseEstimation_construct_circuit pe register a = Return qc ->
  (if QPE._negative_evals self
   then QPE._handle_negative_evals self qc a = Return qc'
   else qc' = qc) ->
  QPE.construct_circuit "circuit" register self
  = (Return qc', QPE.set_circuit qc' a register self).
Proof.
  intros Hpe Ha Hqc Hneg.
  unfold QPE.construct_circuit, mbind, QPE.Method_bind, QPE.get, QPE.lift.
  fold (phase_estimation_args self). rewrite Hpe. simpl.
  rewrite Ha, Hqc.
  destruct (QPE._negative_evals self).
  - rewrite Hneg. reflexivity.
  - subst qc'. reflexivity.
Qed.

(** The circuit-mode path when the correction raises. *)
Lemma construct_circuit_correction_raises (self : QPE.QPE)
  (register : option Register) (pe : PhaseEstimation) (a : Register)
  (qc : Circuit) (e : Exception) :
  PhaseEstimation_new (phase_estimation_args self) = Return pe ->
  QuantumRegister (QPE._num_ancillae self) None = Return a ->
  PhaseEstimation_construct_circuit pe register a = Return qc ->
  QPE._negative_evals self = true ->
  QPE._handle_negative_evals self qc a = Raise e ->
  QPE.construct_circuit "circuit" register self = (Raise e, self).
Proof.
  intros Hpe Ha Hqc Hneg Hraise.
  unfold QPE.construct_circuit, mbind, QPE.Method_bind, QPE.get, QPE.lift.
  fold (phase_estimation_args self). rewrite Hpe. simpl.
  rewrite Ha, Hqc, Hneg, Hraise. reflexivity.
Qed.

End ConstructCircuit.

(** C8. For every builder and every register argument, [construct_circuit]
    in mode ['vector'] never returns; when the configuration is one the
    phase-estimation collaborator accepts, the call fails with the
    unsupported-operation error and leaves the builder as it was. *)
Theorem vector_mode_fails `{Terra, Aqua} (self : QPE.QPE)
  (register : option Register) :
  returns (QPE.construct_circuit "vector" register self).1 = false
  /\ (forall pe,
        PhaseEstimation_new (phase_estimation_args self) = Return pe ->
        QPE.construct_circuit "vector" register self
        = (Raise vector_mode_unsupported, self)).
Proof.
  unfold QPE.construct_circuit, mbind, QPE.Method_bind, QPE.get, QPE.lift.
  fold (phase_estimation_args self). split.
  - destruct (PhaseEstimation_new (phase_estimation_args self)); reflexivity.
  - intros pe ->. reflexivity.
Qed.

Lemma vector_mode_fails_witness :
  @QPE.construct_circuit terra_stub aqua_stub "vector" None
    (example_qpe [(PyFloat 1, identity_pauli 1)] (Some 1%R) false
       [None; None])
  = (Raise vector_mode_unsupported,
     example_qpe [(PyFloat 1, identity_pauli 1)] (Some 1%R) false
       [None; None]).
Proof.
  destruct (@vector_mode_fails terra_stub aqua_stub
              (example_qpe [(PyFloat 1, identity_pauli 1)] (Some 1%R) false
                 [None; None]) None) as [_ Hfails].
  apply (Hfails (phase_estimation_args
                   (example_qpe [(PyFloat 1, identity_pauli 1)] (Some 1%R)
                      false [None; None]))).
  reflexivity.
Defined.

(** C9. [construct_circuit] checks the mode against ['vector'] and nothing
    else: for every other mode string it does what it does for
    ['circuit'], and when the collaborators return it returns the
    assembled circuit and records it with the two registers. *)
Theorem other_modes_build_the_circuit `{Terra, Aqua} (mode : string)
  (self : QPE.QPE) (register : option Register) :
  mode <> "vector" ->
  QPE.construct_circuit mode register self
  = QPE.construct_circuit "circuit" register self
  /\ (forall pe a qc qc',
        PhaseEstimation_new (phase_estimation_args self) = Return pe ->
        QuantumRegister (QPE._num_ancillae self) None = Return a ->
        PhaseEstimation_construct_circuit pe register a = Return qc ->
        (if QPE._negative_evals self
         then QPE._handle_negative_evals self qc a = Return qc'
         else qc' = qc) ->
        QPE.construct_circuit mode register self
        = (Return qc', QPE.set_circuit qc' a register self)).
Proof.
  intros Hmode. split.
  - apply construct_circuit_not_vector. exact Hmode.
  - intros pe a qc qc' Hpe Ha Hqc Hneg.
    rewrite (construct_circuit_not_vector mode register self Hmode).
    apply (construct_circuit_assembled self register pe a qc qc');
      assumption.
Qed.

Lemma other_modes_build_the_circuit_witness :
  (@QPE.construct_circuit terra_stub aqua_stub "foo" None
     (example_qpe [(PyFloat 1, identity_pauli 1)] (Some 1%R) false
        [None; None])).1
  = Return [U "phase_estimation" [] [("q", 0); ("q", 1)]%nat].
Proof.
  destruct (@other_modes_build_the_circuit terra_stub aqua_stub "foo"
              (example_qpe [(PyFloat 1, identity_pauli 1)] (Some 1%R) false
                 [None; None]) None) as [_ Hbuilt].
  - discriminate.
  - rewrite (Hbuilt
               (phase_estimation_args
                  (example_qpe [(PyFloat 1, identity_pauli 1)] (Some 1%R)
                     false [None; None]))
               [("q", 0); ("q", 1)]%nat
               [U "phase_estimation" [] [("q", 0); ("q", 1)]%nat]
               [U "phase_estimation" [] [("q", 0); ("q", 1)]%nat]);
      reflexivity.
Defined.

(** The approximate QFT of the stand-in registry, as a component. *)
Lemma stub_qft_gates (n : Z) (r : Register) (c : Circuit) :
  (n <= Z.of_nat (length r))%Z -> windows_below_1024 n 0 ->
  qft_construct_circuit (stub_qft n) "circuit" (Some r) (Some c)
  = Return (OutCircuit (c ++ aqft_gates n 0 r)).
Proof.
  intros Hlen Hspan.
  apply (@construct_circuit_gates terra_stub
           {| Approximate._num_qubits := n; Approximate._degree := 0 |}
           (Some r) (Some c) r eq_refl Hlen Hspan).
Qed.

(** C7, as the code has it.  With [negative_evals] active and fewer than
    1024 magnitude qubits, the circuit [construct_circuit] returns is the
    phase-estimation circuit followed by exactly: (1) a controlled-NOT
    from ancilla qubit 0, the sign qubit, to every other ancilla qubit;
    (2) the gates of the first auxiliary component over the magnitude
    qubits; (3) for the magnitude qubits in reverse order, a phase
    rotation of angle [2 pi / 2^(k+1)] on the [k]-th of them, [k] from 0,
    controlled by the sign qubit; (4) the gates of the second auxiliary
    component over the magnitude qubits. *)
Theorem negative_evals_correction `{Terra, Aqua} (mode : string)
  (register : option Register) (self : QPE.QPE) (pe : PhaseEstimation)
  (sgn : Qubit) (qs : Register) (qc : Circuit) (f0 f1 : QFT)
  (rest : list (option QFT)) (g0 g1 : list Gate) :
  let cnots := map (fun qi => CX sgn qi) qs in
  let phases :=
    map (fun kq : Z * Qubit => CU1 (2 * PI / pow2 (kq.1 + 1)) sgn kq.2)
      (enumerate (rev qs)) in
  mode <> "vector" ->
  QPE._negative_evals self = true ->
  (Z.of_nat (length qs) < 1024)%Z ->
  PhaseEstimation_new (phase_estimation_args self) = Return pe ->
  QuantumRegister (QPE._num_ancillae self) None = Return (sgn :: qs) ->
  PhaseEstimation_construct_circuit pe register (sgn :: qs) = Return qc ->
  QPE._ne_qfts self = Some f0 :: Some f1 :: rest ->
  qft_construct_circuit f0 "circuit" (Some qs) (Some (qc ++ cnots))
  = Return (OutCircuit ((qc ++ cnots) ++ g0)) ->
  qft_construct_circuit f1 "circuit" (Some qs)
    (Some (((qc ++ cnots) ++ g0) ++ phases))
  = Return (OutCircuit ((((qc ++ cnots) ++ g0) ++ phases) ++ g1)) ->
  (QPE.construct_circuit mode register self).1
  = Return (qc ++ cnots ++ g0 ++ phases ++ g1).
Proof.
  intros cnots phases Hmode Hneg Hlen Hpe Ha Hqc Hne Hf0 Hf1.
  rewrite (construct_circuit_not_vector mode register self Hmode).
  rewrite (construct_circuit_assembled self register pe (sgn :: qs) qc
             ((((qc ++ cnots) ++ g0) ++ phases) ++ g1) Hpe Ha Hqc).
  - simpl. rewrite <- !app_assoc. reflexivity.
  - rewrite Hneg.
    apply (handle_negative_evals_gates self qc sgn qs f0 f1 rest g0 g1
             Hlen Hne Hf0 Hf1).
Qed.

(** Three ancillae: the sign qubit [q0] and the magnitude qubits [q1],
    [q2]; the phases go to [q2] with angle [2 pi / 2] and then to [q1]
    with angle [2 pi / 4]. *)
Lemma negative_evals_correction_witness :
  (@QPE.construct_circuit terra_stub aqua_stub "circuit" None
     (example_signed_qpe 3)).1
  = Return [U "phase_estimation" [] [("q", 0); ("q", 1); ("q", 2)]%nat;
            CX ("q", 0%nat) ("q", 1%nat);
            CX ("q", 0%nat) ("q", 2%nat);
            H ("q", 2%nat);
            CU1 (- PI / pow2 (1 - 0)) ("q", 2%nat) ("q", 1%nat);
            H ("q", 1%nat);
            CU1 (2 * PI / pow2 (0 + 1)) ("q", 0%nat) ("q", 2%nat);
            CU1 (2 * PI / pow2 (1 + 1)) ("q", 0%nat) ("q", 1%nat);
            H ("q", 2%nat);
            CU1 (- PI / pow2 (1 - 0)) ("q", 2%nat) ("q", 1%nat);
            H ("q", 1%nat)].
Proof.
  apply (@negative_evals_correction terra_stub aqua_stub "circuit" None
           (example_signed_qpe 3)
           (phase_estimation_args (example_signed_qpe 3))
           ("q", 0%nat) [("q", 1%nat); ("q", 2%nat)]
           [U "phase_estimation" [] [("q", 0); ("q", 1); ("q", 2)]%nat]
           (stub_qft 2) (stub_qft 2) []
           (aqft_gates 2 0 [("q", 1%nat); ("q", 2%nat)])
           (aqft_gates 2 0 [("q", 1%nat); ("q", 2%nat)])).
  - discriminate.
  - reflexivity.
  - simpl. lia.
  - reflexivity.
  - reflexivity.
  - reflexivity.
  - reflexivity.
  - apply stub_qft_gates; [simpl; lia | left; lia].
  - apply stub_qft_gates; [simpl; lia | left; lia].
Defined.

Lemma length_magnitude_register (n : nat) :
  length (magnitude_register n) = n.
Proof.
  unfold magnitude_register. rewrite length_map, length_seq. reflexivity.
Qed.

(** C7, as the specification words it, fails on 1025 ancillae: both
    components return on the 1024 magnitude qubits, but the phase of the
    last of them needs [2 ** 1024] as a float, and [construct_circuit]
    raises [OverflowError]. *)
Lemma negative_evals_correction_counterexample :
  ~ @correction_as_specified terra_stub aqua_stub (example_signed_qpe 1025)
      None.
Proof.
  intros Hspec.
  assert (Hlen : (1024 <= Z.of_nat (length (magnitude_register 1024)))%Z)
    by (rewrite length_magnitude_register; lia).
  assert (Hqft : forall c : Circuit,
             qft_construct_circuit (stub_qft 1024) "circuit"
               (Some (magnitude_register 1024)) (Some c)
             = Return (OutCircuit
                         (c ++ aqft_gates 1024 0 (magnitude_register 1024)))).
  { intros c. apply stub_qft_gates; [exact Hlen | left; lia]. }
  specialize (Hspec
                (phase_estimation_args (example_signed_qpe 1025))
                ("q", 0%nat) (magnitude_register 1024)
                [U "phase_estimation" []
                   (("q", 0%nat) :: magnitude_register 1024)]
                (stub_qft 1024) (stub_qft 1024) []
                (aqft_gates 1024 0 (magnitude_register 1024))
                (aqft_gates 1024 0 (magnitude_register 1024))
                eq_refl eq_refl eq_refl eq_refl eq_refl
                (Hqft _) (Hqft _)).
  rewrite (@construct_circuit_correction_raises terra_stub aqua_stub
             (example_signed_qpe 1025) None
             (phase_estimation_args (example_signed_qpe 1025))
             (("q", 0%nat) :: magnitude_register 1024)
             [U "phase_estimation" []
                (("q", 0%nat) :: magnitude_register 1024)]
             OverflowError eq_refl eq_refl eq_refl eq_refl) in Hspec.
  - discriminate Hspec.
  - apply (handle_negative_evals_overflow
             (example_signed_qpe 1025) _ ("q", 0%nat)
             (magnitude_register 1024) (stub_qft 1024)
             [Some (stub_qft 1024)] _ Hlen eq_refl (Hqft _)).
Qed.

(** ** The Hermitian extension *)

Lemma broadcast_same {A} (n : nat) (l : list A) :
  length l = n -> broadcast n l = Return l.
Proof.
  intros Hlen. unfold broadcast.
  destruct (decide (length l = n)); [reflexivity | contradiction].
Qed.

Lemma broadcast_to_same (r c : nat) (v : Matrix) :
  has_shape r c v -> broadcast_to r c v = Return v.
Proof.
  intros [Hrows Hcols]. unfold broadcast_to.
  assert (Hmap : mapM (broadcast c) v = Return v).
  { clear Hrows. induction Hcols as [| row v Hrow _ IH]; [reflexivity | ].
    cbn [mapM]. rewrite (broadcast_same c row Hrow). cbn [mbind Result_bind].
    rewrite IH. reflexivity. }
  rewrite Hmap. cbn [mbind Result_bind]. apply broadcast_same. exact Hrows.
Qed.

Lemma square_cols (n : nat) (m : Matrix) :
  has_shape n n m -> (shape m).2 = n.
Proof.
  intros [Hrows Hcols]. destruct Hcols as [| row m Hrow _]; simpl in *; congruence.
Qed.

(** Row [i] of the conjugate transpose. *)
Lemma getH_lookup (m : Matrix) (i : nat) :
  (i < (shape m).2)%nat ->
  getH m !! i = Some (map (fun row => conjugate (nth i row czero)) m).
Proof.
  intros Hi. unfold getH, transpose.
  rewrite !lookup_map, lookup_seq_lt by exact Hi. simpl.
  rewrite map_map. reflexivity.
Qed.

Lemma getH_shape (n : nat) (m : Matrix) :
  has_shape n n m -> has_shape n n (getH m).
Proof.
  intros Hm. pose proof (square_cols n m Hm) as Hc. destruct Hm as [Hrows _].
  unfold has_shape, getH, transpose. rewrite Hc. split.
  - rewrite !length_map, length_seq. reflexivity.
  - rewrite !Forall_map. apply Forall_forall. intros j _. simpl.
    rewrite !length_map. exact Hrows.
Qed.

Lemma getH_entry (n : nat) (m : Matrix) (i j : nat) :
  has_shape n n m -> (i < n)%nat -> (j < n)%nat ->
  entry (getH m) i j = conjugate (entry m j i).
Proof.
  intros Hm Hi Hj. pose proof (square_cols n m Hm) as Hc.
  destruct Hm as [Hrows _]. unfold entry.
  rewrite (nth_lookup (getH m)), getH_lookup by lia. simpl.
  destruct (lookup_lt_is_Some_2 m j) as [row Hrow]; [lia | ].
  rewrite nth_lookup, lookup_map, Hrow. simpl.
  rewrite (nth_lookup m), Hrow. reflexivity.
Qed.

(** The rows of the block matrix [[0, a], [c, 0]]. *)
Lemma block_lookup_top (n : nat) (a c : Matrix) (i : nat) (row : list complex) :
  length a = n -> a !! i = Some row ->
  block (zeros n n) a c (zeros n n) !! i = Some (replicate n czero ++ row).
Proof.
  intros Hlen Hrow. unfold block, zeros.
  pose proof (lookup_lt_Some _ _ _ Hrow) as Hi.
  rewrite lookup_app_l by (rewrite length_zip_with, length_replicate; lia).
  rewrite lookup_zip_with, lookup_replicate_2 by lia. simpl.
  rewrite Hrow. reflexivity.
Qed.

Lemma block_lookup_bottom (n : nat) (a c : Matrix) (i : nat) (row : list complex) :
  length a = n -> length c = n -> c !! i = Some row ->
  block (zeros n n) a c (zeros n n) !! (n + i)%nat
  = Some (row ++ replicate n czero).
Proof.
  intros Ha Hc Hrow. unfold block, zeros.
  pose proof (lookup_lt_Some _ _ _ Hrow) as Hi.
  rewrite lookup_app_r by (rewrite length_zip_with, length_replicate; lia).
  rewrite length_zip_with, length_replicate, Ha.
  replace (n + i - n `min` n)%nat with i by lia.
  rewrite lookup_zip_with, Hrow. simpl.
  rewrite lookup_replicate_2 by lia. reflexivity.
Qed.

Lemma block_length (n : nat) (a c : Matrix) :
  length a = n -> length c = n ->
  length (block (zeros n n) a c (zeros n n)) = (2 * n)%nat.
Proof.
  intros Ha Hc. unfold block, zeros.
  rewrite length_app, !length_zip_with, length_replicate. lia.
Qed.

Lemma conjugate_czero : conjugate czero = czero.
Proof. unfold conjugate, czero. simpl. f_equal. lra. Qed.

Lemma conjugate_involutive (c : complex) : conjugate (conjugate c) = c.
Proof. destruct c as [re im]. unfold conjugate. simpl. f_equal. lra. Qed.

Lemma nth_replicate_czero (n j : nat) : nth j (replicate n czero) czero = czero.
Proof.
  rewrite nth_lookup. destruct (replicate n czero !! j) as [c |] eqn:Hc.
  - apply lookup_replicate in Hc. destruct Hc as [-> _]. reflexivity.
  - reflexivity.
Qed.

(** Two matrices of one shape with the same entries are equal. *)
Lemma matrix_ext (r c : nat) (m m' : Matrix) :
  has_shape r c m -> has_shape r c m' ->
  (forall i j, (i < r)%nat -> (j < c)%nat -> entry m i j = entry m' i j) ->
  m = m'.
Proof.
  intros [Hr Hc] [Hr' Hc'] Hentries.
  apply (nth_ext m m' [] []); [congruence | ].
  intros i Hi.
  assert (Hrow : length (nth i m []) = c).
  { rewrite Forall_forall in Hc. apply Hc, list_elem_of_In, nth_In. exact Hi. }
  assert (Hrow' : length (nth i m' []) = c).
  { rewrite Forall_forall in Hc'. apply Hc', list_elem_of_In, nth_In. lia. }
  apply (nth_ext _ _ czero czero); [congruence | ].
  intros j Hj. apply Hentries; lia.
Qed.

Section HermitianExtension.
Variable n : nat.
Variable a : Matrix.
Hypothesis a_square : has_shape n n a.

Let b : Matrix := block (zeros n n) a (getH a) (zeros n n).

Lemma extension_row_top (i : nat) :
  (i < n)%nat -> nth i b [] = replicate n czero ++ nth i a [].
Proof.
  intros Hi. destruct a_square as [Hlen _].
  destruct (lookup_lt_is_Some_2 a i) as [row Hrow]; [lia | ].
  rewrite (nth_lookup b). unfold b.
  rewrite (block_lookup_top n a (getH a) i row Hlen Hrow).
  rewrite (nth_lookup a), Hrow. reflexivity.
Qed.

Lemma extension_row_bottom (i : nat) :
  (i < n)%nat -> nth (n + i) b [] = nth i (getH a) [] ++ replicate n czero.
Proof.
  intros Hi. destruct a_square as [Hlen _].
  destruct (getH_shape n a a_square) as [HlenH _].
  destruct (lookup_lt_is_Some_2 (getH a) i) as [row Hrow]; [lia | ].
  rewrite (nth_lookup b). unfold b.
  rewrite (block_lookup_bottom n a (getH a) i row Hlen HlenH Hrow).
  rewrite (nth_lookup (getH a)), Hrow. reflexivity.
Qed.

Lemma row_length (m : Matrix) (i : nat) :
  has_shape n n m -> (i < n)%nat -> length (nth i m []) = n.
Proof.
  intros [Hlen Hrows] Hi. rewrite Forall_forall in Hrows.
  apply Hrows, list_elem_of_In, nth_In. lia.
Qed.

Lemma extension_shape : has_shape (2 * n) (2 * n) b.
Proof.
  destruct a_square as [Hlen _].
  destruct (getH_shape n a a_square) as [HlenH _].
  assert (Hb : length b = (2 * n)%nat) by (apply block_length; assumption).
  split; [exact Hb | ].
  apply Forall_forall. intros row Hin.
  apply list_elem_of_In, (In_nth _ _ []) in Hin.
  destruct Hin as (i & Hi & <-).
  destruct (Nat.lt_ge_cases i n) as [Hlt | Hge].
  - rewrite extension_row_top, length_app, length_replicate by exact Hlt.
    rewrite (row_length a i a_square Hlt). lia.
  - replace i with (n + (i - n))%nat by lia.
    rewrite extension_row_bottom, length_app, length_replicate by lia.
    rewrite (row_length (getH a) (i - n) (getH_shape n a a_square)) by lia.
    lia.
Qed.

(** The four blocks, entry by entry. *)
Lemma extension_entries (i j : nat) :
  (i < n)%nat -> (j < n)%nat ->
  entry b i j = czero
  /\ entry b i (n + j) = entry a i j
  /\ entry b (n + i) j = conjugate (entry a j i)
  /\ entry b (n + i) (n + j) = czero.
Proof.
  intros Hi Hj. unfold entry at 1 2 4 6.
  rewrite !extension_row_top, !extension_row_bottom by assumption.
  pose proof (row_length (getH a) i (getH_shape n a a_square) Hi) as HrowH.
  repeat split.
  - rewrite app_nth1 by (rewrite length_replicate; lia).
    apply nth_replicate_czero.
  - rewrite app_nth2 by (rewrite length_replicate; lia).
    rewrite length_replicate. replace (n + j - n)%nat with j by lia.
    reflexivity.
  - rewrite app_nth1 by lia.
    apply (getH_entry n a i j a_square Hi Hj).
  - rewrite app_nth2 by lia. apply nth_replicate_czero.
Qed.

Lemma extension_hermitian : getH b = b.
Proof.
  pose proof extension_shape as Hb.
  apply (matrix_ext (2 * n) (2 * n)); [apply getH_shape; exact Hb | exact Hb | ].
  intros i j Hi Hj. rewrite (getH_entry (2 * n) b i j Hb Hi Hj).
  destruct (Nat.lt_ge_cases i n) as [Hin | Hin],
           (Nat.lt_ge_cases j n) as [Hjn | Hjn].
  - destruct (extension_entries i j Hin Hjn) as (-> & _).
    destruct (extension_entries j i Hjn Hin) as (-> & _).
    apply conjugate_czero.
  - replace j with (n + (j - n))%nat by lia.
    destruct (extension_entries i (j - n) Hin ltac:(lia)) as (_ & -> & _).
    destruct (extension_entries (j - n) i ltac:(lia) Hin) as (_ & _ & -> & _).
    apply conjugate_involutive.
  - replace i with (n + (i - n))%nat by lia.
    destruct (extension_entries (i - n) j ltac:(lia) Hjn) as (_ & _ & -> & _).
    destruct (extension_entries j (i - n) Hjn ltac:(lia)) as (_ & -> & _).
    reflexivity.
  - replace i with (n + (i - n))%nat by lia.
    replace j with (n + (j - n))%nat by lia.
    destruct (extension_entries (i - n) (j - n) ltac:(lia) ltac:(lia))
      as (_ & _ & _ & ->).
    destruct (extension_entries (j - n) (i - n) ltac:(lia) ltac:(lia))
      as (_ & _ & _ & ->).
    apply conjugate_czero.
Qed.

End HermitianExtension.

(** The two slice assignments build the block matrix. *)
Lemma hermitian_extension_block (n : nat) (a : list (list complex))
  (negative_evals : bool) :
  has_shape n n a ->
  QPE.hermitian_extension false negative_evals a
  = Return (true, block (zeros n n) a (getH a) (zeros n n)).
Proof.
  intros Ha. pose proof (getH_shape n a Ha) as HaH.
  pose proof Ha as [Hlen _]. pose proof HaH as [HlenH _].
  unfold QPE.hermitian_extension, setitem_block. simpl. rewrite Hlen.
  rewrite (broadcast_to_same n n (getH a) HaH). cbn [mbind Result_bind mret Result_ret].
  rewrite (broadcast_to_same n n a Ha). cbn [mbind Result_bind mret Result_ret].
  do 2 f_equal. apply list_eq. intros i.
  rewrite !list_lookup_imap.
  destruct (Nat.lt_ge_cases i n) as [Hi | Hi].
  - destruct (lookup_lt_is_Some_2 a i) as [row Hrow]; [lia | ].
    rewrite (block_lookup_top n a (getH a) i row Hlen Hrow). unfold zeros.
    rewrite lookup_replicate_2 by lia. simpl.
    repeat case_decide; try lia.
    rewrite take_replicate, drop_replicate, Nat.sub_0_r, (nth_lookup a), Hrow.
    simpl. replace (n `min` (n + (n + 0)))%nat with n by lia.
    replace (n + (n + 0) - (n + n))%nat with 0%nat by lia.
    simpl. rewrite app_nil_r. reflexivity.
  - destruct (Nat.lt_ge_cases i (2 * n)) as [Hi2 | Hi2].
    + destruct (lookup_lt_is_Some_2 (getH a) (i - n)) as [row Hrow]; [lia | ].
      pose proof (block_lookup_bottom n a (getH a) (i - n) row Hlen HlenH Hrow)
        as Hb.
      replace (n + (i - n))%nat with i in Hb by lia. rewrite Hb.
      unfold zeros. rewrite lookup_replicate_2 by lia. simpl.
      repeat case_decide; try lia.
      rewrite drop_replicate, (nth_lookup (getH a)), Hrow. simpl.
      replace (n + (n + 0) - n)%nat with n by lia. reflexivity.
    + unfold zeros at 1. rewrite (lookup_ge_None_2 (replicate _ _))
        by (rewrite length_replicate; lia).
      simpl. symmetry. apply lookup_ge_None_2.
      rewrite (block_length n a (getH a) Hlen HlenH). lia.
Qed.

(** ** Building from the parameters dictionary *)

(** [_init_constants] assigns the evolution time and the phase
    coefficient, nothing else. *)
Lemma init_constants_same_configuration (self : QPE.QPE) :
  same_configuration (QPE._init_constants self).2 self.
Proof.
  assert (Hscan : forall s, same_configuration s self ->
            same_configuration
              (dropped (for_ (M := QPE.Method) (paulis (QPE._operator self))
                          QPE.identity_step 0%Z s)).2 self).
  { intros s Hs. rewrite dropped_state, scan_outcome.
    destruct (identity_terms (QPE._operator self)) as [| p [| p' rest]];
      exact Hs. }
  destruct (QPE._evo_time self) as [t |] eqn:Ht.
  - rewrite (init_constants_supplied self t Ht). apply Hscan.
    repeat split.
  - destruct (Req_dec_T (lmax (QPE._operator self)) 0) as [HL | HL].
    + destruct (numpy_lmax (QPE._operator self)) eqn:Hnp.
      * rewrite (init_constants_numpy_zero self Ht HL Hnp). apply Hscan.
        repeat split.
      * rewrite (init_constants_zero_division self Ht HL Hnp). repeat split.
    + rewrite (init_constants_derived self Ht HL). apply Hscan.
      repeat split.
Qed.

Section InitParams.
Context `{Aqua}.

(** The object [init_params] returns has the ancilla count of the
    caller, plus one exactly when the caller asked for negative
    eigenvalues, and the caller's flag: the matrix not being Hermitian
    changes neither. *)
Lemma init_params_configuration (params params' : Params)
  (matrix : option (list (list complex))) (self : QPE.QPE) :
  QPE.init_params params matrix = Return (self, params') ->
  QPE._num_ancillae self
  = (if eigs_negative_evals (eigs params)
     then eigs_num_ancillae (eigs params) + 1
     else eigs_num_ancillae (eigs params))%Z
  /\ QPE._negative_evals self = eigs_negative_evals (eigs params).
Proof.
  unfold QPE.init_params. destruct matrix as [matrix |]; [| discriminate].
  destruct (eigs_negative_evals (eigs params)) eqn:Hneg;
    (destruct (QPE.hermitian_extension _ _ matrix) as [[ne m] | e];
       [| discriminate]);
    cbn [mbind Result_bind];
    (destruct (Operator_of_matrix m) as [op | e]; [| discriminate]);
    cbn [mbind Result_bind];
    (destruct (dict_getitem _ "name") as [name | e]; [| discriminate]);
    cbn [mbind Result_bind];
    (destruct (pluggable_init_params IQFT_TYPE name _) as [component | e];
       [| discriminate]);
    cbn [mbind Result_bind];
    (destruct (QPE.negative_evals_qfts ne _) as [[ne_qfts params2] | e];
       [| discriminate]);
    cbn -[QPE._init_constants QPE.__init__]; unfold QPE.__init__;
    (match goal with |- context [validate ?args] =>
       destruct (validate args) as [[] | e]; [| discriminate]
     end);
    cbn -[QPE._init_constants];
    (match goal with |- context [QPE._init_constants ?s] =>
       pose proof (init_constants_same_configuration s) as (Hn & Hf & _);
       destruct (QPE._init_constants s) as [[[] | e] self']
     end; [| discriminate]);
    cbn in *; intros [= <- <-]; unfold QPE.set_ret; cbn; split; congruence.
Qed.

End InitParams.

(** The stand-ins run [init_params] to its end on a one by one matrix. *)
Lemma example_init_params_returns (hermitian_matrix negative_evals : bool) :
  exists self params',
    @QPE.init_params aqua_stub
      (example_params 3 hermitian_matrix negative_evals)
      (Some [[Complex 1 0]]) = Return (self, params').
Proof.
  destruct hermitian_matrix, negative_evals; unfold QPE.init_params;
    cbn -[QPE._init_constants insert lookup QPE.hermitian_extension];
    try rewrite (hermitian_extension_block 1 [[Complex 1 0]])
      by (split; [reflexivity | repeat constructor]);
    cbn -[QPE._init_constants insert lookup];
    do 6 dict_lookup;
    (rewrite init_constants_derived;
     [ | reflexivity
       | unfold lmax, sum; simpl; rewrite Rabs_R1; lra ]);
    rewrite scan_outcome; cbn; eexists _, _; reflexivity.
Qed.

(** C4, on the code.  For a square matrix [a] flagged as not Hermitian,
    with [negative_evals] not requested: the extension step of
    [init_params] builds the block matrix [[0, a], [a^H, 0]], which equals
    its conjugate transpose, and sets its local [negative_evals]; but the
    builder [init_params] returns has [negative_evals] false and the
    caller's ancilla count, without the sign qubit: the flag of the step
    does not reach the constructor. *)
Theorem hermitization_flag_stays_local `{Aqua} (params params' : Params)
  (n : nat) (a : Matrix) (self : QPE.QPE) :
  has_shape n n a ->
  eigs_hermitian_matrix (eigs params) = false ->
  eigs_negative_evals (eigs params) = false ->
  QPE.init_params params (Some a) = Return (self, params') ->
  let b := block (zeros n n) a (getH a) (zeros n n) in
  QPE.hermitian_extension (eigs_hermitian_matrix (eigs params))
    (eigs_negative_evals (eigs params)) a = Return (true, b)
  /\ getH b = b
  /\ QPE._negative_evals self = false
  /\ QPE._num_ancillae self = eigs_num_ancillae (eigs params).
Proof.
  intros Ha Hherm Hneg Hrun b.
  destruct (init_params_configuration params params' (Some a) self Hrun)
    as [Hn Hf].
  rewrite Hneg in Hn, Hf. rewrite Hherm, Hneg.
  split; [apply hermitian_extension_block; exact Ha | ].
  split; [apply extension_hermitian; exact Ha | ].
  split; assumption.
Qed.

Lemma hermitization_flag_stays_local_witness :
  exists self params',
    @QPE.init_params aqua_stub (example_params 3 false false)
      (Some [[Complex 1 0]]) = Return (self, params')
    /\ QPE.hermitian_extension false false [[Complex 1 0]]
       = Return (true,
                 block (zeros 1 1) [[Complex 1 0]] (getH [[Complex 1 0]])
                   (zeros 1 1))
    /\ QPE._negative_evals self = false
    /\ QPE._num_ancillae self = 3%Z.
Proof.
  destruct (example_init_params_returns false false)
    as (self & params' & Hrun).
  exists self, params'. split; [exact Hrun | ].
  destruct (@hermitization_flag_stays_local aqua_stub
              (example_params 3 false false) params' 1 [[Complex 1 0]] self)
    as (Hext & _ & Hflag & Hn).
  - split; [reflexivity | repeat constructor].
  - reflexivity.
  - reflexivity.
  - exact Hrun.
  - split; [exact Hext | split; [exact Hflag | exact Hn]].
Defined.

(** C3, on the code.  Asked for negative eigenvalues with three ancillae,
    [init_params] gives the builder four ancillae (register sizes and
    evolution time use four) but sizes the inverse QFT with the caller's
    three, and the two additional QFTs with two for three magnitude
    qubits.  When negative eigenvalues are forced by a matrix that is not
    Hermitian, the builder keeps the caller's three ancillae and the
    caller's flag, and still gets the two additional QFTs. *)
Theorem ancilla_increment_misses_the_iqft :
  (exists self params',
      @QPE.init_params aqua_stub (example_params 3 true true)
        (Some [[Complex 1 0]]) = Return (self, params')
      /\ QPE.get_register_sizes self = (1, 4)%Z
      /\ QPE.get_scaling self
         = Some (Finite ((1 / 2 - pow2 (- 4)) * 2 * PI / (0 + Rabs 1)))
      /\ QPE._iqft self = stub_qft 3
      /\ QPE._ne_qfts self = [Some (stub_qft 2); Some (stub_qft 2)])
  /\ (exists self params',
        @QPE.init_params aqua_stub (example_params 3 false false)
          (Some [[Complex 1 0]]) = Return (self, params')
        /\ QPE.get_register_sizes self = (1, 3)%Z
        /\ QPE._negative_evals self = false
        /\ QPE._iqft self = stub_qft 3
        /\ QPE._ne_qfts self = [Some (stub_qft 2); Some (stub_qft 2)]).
Proof.
  split.
  - eexists _, _. unfold QPE.init_params.
    cbn -[QPE._init_constants insert lookup].
    do 6 dict_lookup.
    rewrite init_constants_derived; [ | reflexivity | ].
    2: { unfold lmax, sum. simpl. rewrite Rabs_R1. lra. }
    rewrite scan_outcome. cbn.
    split; [reflexivity | ]. repeat split.
  - eexists _, _. unfold QPE.init_params.
    cbn -[QPE._init_constants insert lookup QPE.hermitian_extension].
    rewrite (hermitian_extension_block 1 [[Complex 1 0]] false)
      by (split; [reflexivity | repeat constructor]).
    cbn -[QPE._init_constants insert lookup].
    do 6 dict_lookup.
    rewrite init_constants_derived; [ | reflexivity | ].
    2: { unfold lmax, sum. simpl. rewrite Rabs_R1. lra. }
    rewrite scan_outcome. cbn.
    split; [reflexivity | ]. repeat split.
Qed.

(** * Further properties *)

(** ** The approximate QFT: modes, bounds, size *)

(** X1. A mode string other than ['vector'] and ['circuit'] makes the
    approximate QFT raise a [ValueError], whatever its size, degree,
    register and circuit. *)
Theorem approximate_unknown_mode `{Terra} (self : Approximate.Approximate)
  (mode : string) (register : option (list Qubit))
  (circuit : option (list Gate)) :
  mode <> "vector" -> mode <> "circuit" ->
  exists msg,
    Approximate.construct_circuit self mode register circuit
    = Raise (ValueError msg).
Proof.
  intros Hv Hc. unfold Approximate.construct_circuit.
  apply String.eqb_neq in Hv, Hc. rewrite Hv, Hc. eexists. reflexivity.
Qed.

Lemma approximate_unknown_mode_witness :
  exists msg,
    @Approximate.construct_circuit terra_stub
      {| Approximate._num_qubits := 2; Approximate._degree := 0 |}
      "matrix" None None
    = Raise (ValueError msg).
Proof.
  apply (@approximate_unknown_mode terra_stub
           {| Approximate._num_qubits := 2; Approximate._degree := 0 |}
           "matrix" None None); discriminate.
Defined.

Lemma construct_circuit_short_register `{Terra}
  (self : Approximate.Approximate) (register : list Qubit)
  (circuit : option (list Gate)) :
  (Z.of_nat (length register) < Approximate._num_qubits self)%Z ->
  Approximate.construct_circuit self "circuit" (Some register) circuit
  = Raise IndexError.
Proof.
  intros Hshort. unfold Approximate.construct_circuit. simpl.
  set (n := Approximate._num_qubits self) in *.
  replace n with (n - 1 + 1)%Z by lia.
  unfold reversed. rewrite range_snoc by lia. rewrite rev_unit.
  cbn [for_]. unfold Approximate.h_step.
  assert (Hget : getitem register (n - 1) = Raise IndexError).
  { unfold getitem.
    assert (Hpos : (n - 1 <? 0)%Z = false) by lia.
    rewrite Hpos. cbv zeta. rewrite Hpos.
    rewrite lookup_ge_None_2 by lia. reflexivity. }
  rewrite Hget. reflexivity.
Qed.

(** X2. Circuit mode over a supplied register with fewer qubits than
    [num_qubits] raises [IndexError], at the first qubit it touches, for
    every degree and every circuit. *)
Theorem approximate_register_too_short `{Terra}
  (self : Approximate.Approximate) (register : list Qubit)
  (circuit : option (list Gate)) :
  (Z.of_nat (length register) < Approximate._num_qubits self)%Z ->
  Approximate.construct_circuit self "circuit" (Some register) circuit
  = Raise IndexError.
Proof. apply construct_circuit_short_register. Qed.

Lemma approximate_register_too_short_witness :
  @Approximate.construct_circuit terra_stub
    {| Approximate._num_qubits := 3; Approximate._degree := 0 |}
    "circuit" (Some [("q", 0); ("q", 1)]%nat) None
  = Raise IndexError.
Proof.
  apply (@approximate_register_too_short terra_stub
           {| Approximate._num_qubits := 3; Approximate._degree := 0 |}
           [("q", 0); ("q", 1)]%nat None).
  simpl. lia.
Defined.

(** X3. Where circuit mode returns ([num_qubits <= 1024] or
    [num_qubits - degree <= 1024]), the controlled phases it emits are
    exactly those from a qubit [j] to a qubit [k] of its window, with
    angle [-pi / 2^(j-k)]: no other pair is connected, so no phase spans
    more than [num_qubits - 1 - degree] positions. *)
Theorem approximate_phases_characterised `{Terra} (n d : Z)
  (r : list Qubit) :
  (n <= Z.of_nat (length r))%Z ->
  (n <= 1024 \/ n - d <= 1024)%Z ->
  exists gates,
    emitted {| Approximate._num_qubits := n; Approximate._degree := d |} r
    = Some gates
    /\ forall theta ctl tgt,
         CU1 theta ctl tgt ∈ gates
         <-> exists j k : Z,
               (0 <= k < j)%Z /\ (j < n)%Z /\ (j - k <= n - 1 - d)%Z
               /\ theta = (- PI / pow2 (j - k))%R
               /\ ctl = qubit r j /\ tgt = qubit r k.
Proof.
  intros Hlen Hspan. exists (aqft_gates n d r). split.
  - apply (emitted_gates {| Approximate._num_qubits := n;
                            Approximate._degree := d |} r Hlen Hspan).
  - intros theta ctl tgt. unfold aqft_gates.
    rewrite list_elem_of_In, in_concat. split.
    + intros (blk & Hblk & Hin).
      apply in_map_iff in Hblk. destruct Hblk as (j & <- & Hj).
      apply in_rev, list_elem_of_In, elem_of_range in Hj.
      destruct Hin as [Hhead | Hin]; [discriminate Hhead | ].
      apply in_map_iff in Hin. destruct Hin as (k & Heq & Hk).
      apply in_rev, list_elem_of_In, elem_of_range in Hk.
      injection Heq as <- <- <-.
      exists j, k. repeat split; lia.
    + intros (j & k & Hk & Hj & Hdist & -> & -> & ->).
      exists (aqft_block n d r j). split.
      * apply in_map, in_rev. rewrite rev_involutive.
        apply list_elem_of_In, elem_of_range. lia.
      * right.
        apply (in_map (fun k0 => CU1 (- PI / pow2 (j - k0)) (qubit r j)
                                   (qubit r k0))).
        apply in_rev. rewrite rev_involutive.
        apply list_elem_of_In, elem_of_range. lia.
Qed.

Lemma approximate_phases_characterised_witness :
  exists gates,
    @emitted terra_stub
      {| Approximate._num_qubits := 3; Approximate._degree := 1 |}
      [("q", 0); ("q", 1); ("q", 2)]%nat = Some gates
    /\ ~ (exists theta, CU1 theta ("q", 2%nat) ("q", 0%nat) ∈ gates).
Proof.
  destruct (@approximate_phases_characterised terra_stub 3 1
              [("q", 0); ("q", 1); ("q", 2)]%nat) as (gates & Hem & Hchar).
  - simpl. lia.
  - lia.
  - exists gates. split; [exact Hem | ].
    intros [theta Hin]. apply Hchar in Hin.
    destruct Hin as (j & k & Hk & Hj & Hdist & _ & Hctl & Htgt).
    assert (j = 0 \/ j = 1 \/ j = 2)%Z as [-> | [-> | ->]] by lia;
      assert (k = 0 \/ k = 1)%Z as [-> | ->] by lia;
      try lia; discriminate.
Defined.

Lemma filter_phases_nil {A} (f : A -> Gate) (l : list A) :
  (forall a, is_cu1 (f a) = true) ->
  List.filter (fun g => negb (is_cu1 g)) (map f l) = [].
Proof.
  intros Hf. induction l as [| a l IH]; simpl; [reflexivity | ].
  rewrite Hf. exact IH.
Qed.

(** X4. Where circuit mode returns ([num_qubits <= 1024] or
    [num_qubits - degree <= 1024]), whatever the degree, it puts exactly
    one Hadamard on each of the [num_qubits] qubits, from the most
    significant to the least: without the controlled phases the emitted
    gates are these Hadamards. *)
Theorem approximate_hadamards `{Terra} (n d : Z) (r : list Qubit) :
  (n <= Z.of_nat (length r))%Z ->
  (n <= 1024 \/ n - d <= 1024)%Z ->
  exists gates,
    emitted {| Approximate._num_qubits := n; Approximate._degree := d |} r
    = Some gates
    /\ List.filter (fun g => negb (is_cu1 g)) gates
       = map (fun j => H (qubit r j)) (rev (range 0 n)).
Proof.
  intros Hlen Hspan. exists (aqft_gates n d r). split.
  - apply (emitted_gates {| Approximate._num_qubits := n;
                            Approximate._degree := d |} r Hlen Hspan).
  - unfold aqft_gates. induction (rev (range 0 n)) as [| j js IH];
      [reflexivity | ].
    simpl. rewrite List.filter_app, IH, filter_phases_nil by reflexivity.
    reflexivity.
Qed.

Lemma approximate_hadamards_witness :
  exists gates,
    @emitted terra_stub
      {| Approximate._num_qubits := 2; Approximate._degree := 0 |}
      [("q", 0); ("q", 1)]%nat = Some gates
    /\ List.filter (fun g => negb (is_cu1 g)) gates
       = [H ("q", 1%nat); H ("q", 0%nat)].
Proof.
  apply (@approximate_hadamards terra_stub 2 0 [("q", 0); ("q", 1)]%nat).
  - simpl. lia.
  - lia.
Defined.

Lemma aqft_block_sublist (n d d' : Z) (r : list Qubit) (j : Z) :
  (d <= d')%Z -> aqft_block n d' r j `sublist_of` aqft_block n d r j.
Proof.
  intros Hd. unfold aqft_block, aqft_window. apply sublist_skip.
  set (lo := Z.max 0 (j - n + d + 1)). set (lo' := Z.max 0 (j - n + d' + 1)).
  destruct (Z.le_gt_cases lo' j) as [Hle | Hgt].
  - rewrite (range_app lo lo' j) by lia.
    rewrite rev_app_distr, map_app. apply sublist_inserts_r. reflexivity.
  - rewrite (range_empty lo' j) by lia. apply sublist_nil_l.
Qed.

(** X5. Raising the degree only removes gates: where circuit mode
    returns with a degree [d] ([num_qubits <= 1024] or
    [num_qubits - d <= 1024]), it returns with every higher degree [d'],
    and the gates emitted with [d'] are, in the same order, among those
    emitted with [d]. *)
Theorem approximate_degree_monotone `{Terra} (n d d' : Z) (r : list Qubit) :
  (d <= d')%Z -> (n <= Z.of_nat (length r))%Z ->
  (n <= 1024 \/ n - d <= 1024)%Z ->
  exists gates gates',
    emitted {| Approximate._num_qubits := n; Approximate._degree := d |} r
    = Some gates
    /\ emitted {| Approximate._num_qubits := n; Approximate._degree := d' |} r
       = Some gates'
    /\ gates' `sublist_of` gates.
Proof.
  intros Hd Hlen Hspan. exists (aqft_gates n d r), (aqft_gates n d' r).
  split; [| split].
  - apply (emitted_gates {| Approximate._num_qubits := n;
                            Approximate._degree := d |} r Hlen Hspan).
  - apply (emitted_gates {| Approximate._num_qubits := n;
                            Approximate._degree := d' |} r Hlen).
    destruct Hspan; [left; assumption | right; simpl; lia].
  - unfold aqft_gates. induction (rev (range 0 n)) as [| j js IH].
    + reflexivity.
    + cbn [map concat]. apply sublist_app; [| exact IH].
      apply aqft_block_sublist. exact Hd.
Qed.

Lemma approximate_degree_monotone_witness :
  exists gates gates',
    @emitted terra_stub
      {| Approximate._num_qubits := 3; Approximate._degree := 0 |}
      [("q", 0); ("q", 1); ("q", 2)]%nat = Some gates
    /\ @emitted terra_stub
         {| Approximate._num_qubits := 3; Approximate._degree := 1 |}
         [("q", 0); ("q", 1); ("q", 2)]%nat = Some gates'
    /\ gates' `sublist_of` gates.
Proof.
  apply (@approximate_degree_monotone terra_stub 3 0 1
           [("q", 0); ("q", 1); ("q", 2)]%nat).
  - lia.
  - simpl. lia.
  - lia.
Defined.

Lemma aqft_block_length (n d : Z) (r : list Qubit) (j : Z) :
  (0 <= j)%Z ->
  Z.of_nat (length (aqft_block n d r j))
  = (1 + Z.max 0 (Z.min j (n - 1 - d)))%Z.
Proof.
  intros Hj. unfold aqft_block, aqft_window. cbn [length].
  rewrite length_map, length_rev, length_range. lia.
Qed.

Lemma aqft_gates_length_upto (n d : Z) (r : list Qubit) (N : nat) :
  (0 <= n - 1 - d)%Z ->
  (2 * Z.of_nat (length (concat (map (aqft_block n d r)
                                   (rev (range 0 (Z.of_nat N))))))
   = 2 * Z.of_nat N
     + (if (Z.of_nat N <=? n - d)%Z
        then Z.of_nat N * (Z.of_nat N - 1)
        else (n - 1 - d) * (n - d)
             + 2 * (Z.of_nat N - (n - d)) * (n - 1 - d)))%Z.
Proof.
  intros Hm. induction N as [| N IH].
  - change (Z.of_nat 0) with 0%Z. rewrite (range_empty 0 0) by lia.
    cbn [rev map concat length]. destruct (Z.leb_spec 0 (n - d)); lia.
  - replace (Z.of_nat (S N)) with (Z.of_nat N + 1)%Z by lia.
    rewrite range_snoc by lia. rewrite rev_unit. cbn [map concat].
    rewrite length_app, Nat2Z.inj_add, aqft_block_length by lia.
    destruct (Z.leb_spec (Z.of_nat N) (n - d)),
             (Z.leb_spec (Z.of_nat N + 1) (n - d)); nia.
Qed.

(** X6. The size of the circuit: for a degree between [0] and
    [num_qubits - 1], where circuit mode returns ([num_qubits <= 1024] or
    [num_qubits - degree <= 1024]), it emits [num_qubits] Hadamards and
    [m (m + 1) / 2 + degree * m] controlled phases, where
    [m = num_qubits - 1 - degree]. *)
Theorem approximate_gate_count `{Terra} (n d : Z) (r : list Qubit) :
  (0 <= d <= n - 1)%Z -> (n <= Z.of_nat (length r))%Z ->
  (n <= 1024 \/ n - d <= 1024)%Z ->
  exists gates,
    emitted {| Approximate._num_qubits := n; Approximate._degree := d |} r
    = Some gates
    /\ (2 * Z.of_nat (length gates)
        = 2 * n + (n - 1 - d) * (n - d) + 2 * d * (n - 1 - d))%Z.
Proof.
  intros Hd Hlen Hspan. exists (aqft_gates n d r). split.
  - apply (emitted_gates {| Approximate._num_qubits := n;
                            Approximate._degree := d |} r Hlen Hspan).
  - unfold aqft_gates.
    pose proof (aqft_gates_length_upto n d r (Z.to_nat n) ltac:(lia)) as Hcount.
    rewrite Z2Nat.id in Hcount by lia. rewrite Hcount.
    destruct (Z.leb_spec n (n - d)); nia.
Qed.

Lemma approximate_gate_count_witness :
  exists gates,
    @emitted terra_stub
      {| Approximate._num_qubits := 3; Approximate._degree := 1 |}
      [("q", 0); ("q", 1); ("q", 2)]%nat = Some gates
    /\ (2 * Z.of_nat (length gates) = 10)%Z.
Proof.
  apply (@approximate_gate_count terra_stub 3 1
           [("q", 0); ("q", 1); ("q", 2)]%nat).
  - lia.
  - simpl. lia.
  - lia.
Defined.

(** X21. Circuit mode over a register of at least [num_qubits] qubits
    raises [OverflowError] exactly when [num_qubits > 1024] and
    [num_qubits - degree > 1024]: the phase from the most significant
    qubit to the qubit 1024 positions below it needs [float(2 ** 1024)],
    and it is raised before any gate is returned. *)
Theorem approximate_overflow `{Terra} (self : Approximate.Approximate)
  (r : list Qubit) (circuit : option (list Gate)) :
  (Approximate._num_qubits self <= Z.of_nat (length r))%Z ->
  Approximate.construct_circuit self "circuit" (Some r) circuit
  = Raise OverflowError
  <-> (1024 < Approximate._num_qubits self
       /\ 1024 < Approximate._num_qubits self - Approximate._degree self)%Z.
Proof.
  intros Hlen. split.
  - intros Hraise.
    destruct (Z.le_gt_cases (Approximate._num_qubits self) 1024) as [Hn | Hn];
      [| destruct (Z.le_gt_cases
                     (Approximate._num_qubits self - Approximate._degree self)
                     1024) as [Hd | Hd]];
      [ | | split; assumption ].
    + rewrite (construct_circuit_gates self (Some r) circuit r eq_refl Hlen)
        in Hraise by (left; exact Hn).
      discriminate.
    + rewrite (construct_circuit_gates self (Some r) circuit r eq_refl Hlen)
        in Hraise by (right; exact Hd).
      discriminate.
  - intros [Hn Hd].
    apply (construct_circuit_overflow self (Some r) circuit r eq_refl Hlen).
    unfold windows_below_1024. lia.
Qed.

Lemma approximate_overflow_witness :
  @Approximate.construct_circuit terra_stub
    {| Approximate._num_qubits := 1025; Approximate._degree := 0 |}
    "circuit" (Some (example_register 1025)) None
  = Raise OverflowError.
Proof.
  apply (@approximate_overflow terra_stub
           {| Approximate._num_qubits := 1025; Approximate._degree := 0 |}
           (example_register 1025) None).
  - rewrite length_example_register. simpl. lia.
  - simpl. lia.
Defined.

(** ** The constants: what the step keeps and repeats *)

Lemma with_constants_same (self : QPE.QPE) :
  with_constants (QPE._evo_time self) (QPE._ancilla_phase_coef self) self
  = self.
Proof. destruct self. reflexivity. Qed.

(** X7. [_init_constants] assigns the evolution time and the ancilla
    phase offset and no other attribute, whether it returns or raises. *)
Theorem init_constants_assigns_two_attributes (self : QPE.QPE) :
  let after := (QPE._init_constants self).2 in
  after
  = with_constants (QPE._evo_time after) (QPE._ancilla_phase_coef after) self.
Proof.
  assert (Hscan : forall s e c,
            s = with_constants e c self ->
            exists e' c',
              (dropped (for_ (M := QPE.Method) (paulis (QPE._operator self))
                          QPE.identity_step 0%Z s)).2
              = with_constants e' c' self).
  { intros s e c ->. rewrite dropped_state, scan_outcome.
    destruct (identity_terms (QPE._operator self)) as [| p [| p' rest]];
      eexists _, _; reflexivity. }
  assert (Hafter : exists e c,
            (QPE._init_constants self).2 = with_constants e c self).
  { destruct (QPE._evo_time self) as [t |] eqn:Ht.
    - rewrite (init_constants_supplied self t Ht).
      apply (Hscan self (QPE._evo_time self) (QPE._ancilla_phase_coef self)).
      symmetry. apply with_constants_same.
    - destruct (Req_dec_T (lmax (QPE._operator self)) 0) as [HL | HL].
      + destruct (numpy_lmax (QPE._operator self)) eqn:Hnp.
        * rewrite (init_constants_numpy_zero self Ht HL Hnp).
          eapply (Hscan _ _ (QPE._ancilla_phase_coef self)).
          destruct self. reflexivity.
        * rewrite (init_constants_zero_division self Ht HL Hnp).
          exists (QPE._evo_time self), (QPE._ancilla_phase_coef self).
          symmetry. apply with_constants_same.
      + rewrite (init_constants_derived self Ht HL).
        eapply (Hscan _ _ (QPE._ancilla_phase_coef self)).
        destruct self. reflexivity. }
  destruct Hafter as (e & c & Hafter). cbv zeta. rewrite Hafter. reflexivity.
Qed.

(** X8. The step is idempotent: on the object a returning run leaves,
    a second run returns and changes nothing; in particular a derived
    evolution time is not derived again. *)
Theorem init_constants_idempotent (self after : QPE.QPE) :
  QPE._init_constants self = (Return tt, after) ->
  QPE._init_constants after = (Return tt, after).
Proof.
  intros Hrun.
  assert (Hreach : exists s0 t,
            QPE._init_constants self
            = dropped (for_ (M := QPE.Method) (paulis (QPE._operator self))
                         QPE.identity_step 0%Z s0)
            /\ QPE._evo_time s0 = Some t).
  { destruct (QPE._evo_time self) as [t |] eqn:Ht.
    - exists self, t. split; [apply (init_constants_supplied self t Ht) | exact Ht].
    - destruct (Req_dec_T (lmax (QPE._operator self)) 0) as [HL | HL].
      + destruct (numpy_lmax (QPE._operator self)) eqn:Hnp.
        * eexists _, _. split;
            [apply (init_constants_numpy_zero self Ht HL Hnp) | reflexivity].
        * rewrite (init_constants_zero_division self Ht HL Hnp) in Hrun.
          discriminate.
      + eexists _, _. split;
          [apply (init_constants_derived self Ht HL) | reflexivity]. }
  destruct Hreach as (s0 & t & Hs0 & Ht).
  rewrite Hs0, scan_outcome in Hrun.
  pose proof (init_constants_same_configuration self) as (_ & _ & Hop & _).
  rewrite Hs0, dropped_state, scan_outcome in Hop.
  destruct (identity_terms (QPE._operator self)) as [| p [| p' rest]] eqn:Hids;
    simpl in Hrun; [| | discriminate].
  - injection Hrun as Hafter. subst after. simpl in Hop.
    pose proof (init_constants_supplied s0 t Ht) as Hagain.
    rewrite Hagain, scan_outcome, Hop, Hids. reflexivity.
  - injection Hrun as Hafter. subst after. simpl in Hop.
    pose proof (init_constants_supplied
                  (QPE.set_ancilla_phase_coef (QPE.real_part p.1) s0) t Ht)
      as Hagain.
    rewrite Hagain, scan_outcome.
    cbn [QPE._operator QPE.set_ancilla_phase_coef]. rewrite Hop, Hids.
    reflexivity.
Qed.

Lemma init_constants_idempotent_witness :
  QPE._init_constants
    (QPE.set_ancilla_phase_coef 1
       (example_qpe [(PyFloat 1, identity_pauli 1)] (Some 1%R) false
          [None; None]))
  = (Return tt,
     QPE.set_ancilla_phase_coef 1
       (example_qpe [(PyFloat 1, identity_pauli 1)] (Some 1%R) false
          [None; None])).
Proof.
  apply (init_constants_idempotent
           (example_qpe [(PyFloat 1, identity_pauli 1)] (Some 1%R) false
              [None; None])).
  reflexivity.
Defined.



(** ** Building from the parameters dictionary: what the caller gets *)

Section InitParamsProperties.
Context `{Aqua}.

(** The steps of a returning [init_params]. *)
Lemma init_params_inversion (params params' : Params)
  (matrix : option (list (list complex))) (self : QPE.QPE) :
  QPE.init_params params matrix = Return (self, params') ->
  let e := eigs params in
  let params1 :=
    set_iqft (<["num_qubits" := VInt (eigs_num_ancillae e)]> (iqft params))
      params in
  exists m ne m' op name component ne_qfts,
    matrix = Some m
    /\ QPE.hermitian_extension (eigs_hermitian_matrix e)
         (eigs_negative_evals e) m = Return (ne, m')
    /\ Operator_of_matrix m' = Return op
    /\ dict_getitem (iqft params1) "name" = Return name
    /\ pluggable_init_params IQFT_TYPE name params1 = Return component
    /\ QPE.negative_evals_qfts ne params1 = Return (ne_qfts, params')
    /\ QPE.__init__
         {| arg_operator := op; arg_iqft := component;
            arg_num_time_slices := eigs_num_time_slices e;
            arg_num_ancillae :=
              (if eigs_negative_evals e
               then eigs_num_ancillae e + 1
               else eigs_num_ancillae e)%Z;
            arg_expansion_mode := eigs_expansion_mode e;
            arg_expansion_order := eigs_expansion_order e;
            arg_evo_time := eigs_evo_time e;
            arg_use_basis_gates := eigs_use_basis_gates e;
            arg_hermitian_matrix := eigs_hermitian_matrix e;
            arg_negative_evals := eigs_negative_evals e;
            arg_ne_qfts := ne_qfts |} = Return self.
Proof.
  unfold QPE.init_params. destruct matrix as [m |]; [| discriminate].
  intros Hrun. cbv zeta. exists m.
  destruct (QPE.hermitian_extension _ _ m) as [[ne m'] | ex];
    [| discriminate].
  cbn [mbind Result_bind] in Hrun. exists ne, m'.
  destruct (Operator_of_matrix m') as [op | ex]; [| discriminate].
  cbn [mbind Result_bind] in Hrun. exists op.
  destruct (dict_getitem _ "name") as [name | ex]; [| discriminate].
  cbn [mbind Result_bind] in Hrun. exists name.
  destruct (pluggable_init_params IQFT_TYPE name _)
    as [component | ex]; [| discriminate].
  cbn [mbind Result_bind] in Hrun. exists component.
  destruct (QPE.negative_evals_qfts ne _) as [[ne_qfts params2] | ex];
    [| discriminate].
  cbn [mbind Result_bind] in Hrun. exists ne_qfts.
  destruct (eigs_negative_evals (eigs params)) eqn:Hneg;
    cbn -[QPE.__init__] in Hrun;
    match type of Hrun with context [QPE.__init__ ?args] =>
      destruct (QPE.__init__ args) as [self0 | ex] eqn:Hinit
    end; try discriminate;
    cbn in Hrun; injection Hrun as -> ->;
    repeat split; try reflexivity; rewrite Hneg in Hinit; exact Hinit.
Qed.

Lemma hermitian_extension_flag (hermitian_matrix negative_evals ne : bool)
  (m m' : list (list complex)) :
  QPE.hermitian_extension hermitian_matrix negative_evals m = Return (ne, m') ->
  ne = negative_evals || negb hermitian_matrix.
Proof.
  unfold QPE.hermitian_extension. destruct hermitian_matrix; simpl.
  - intros [= <- _]. destruct negative_evals; reflexivity.
  - destruct (setitem_block _ _ _ _ _ _) as [m1 | ex]; [| discriminate].
    cbn [mbind Result_bind].
    destruct (setitem_block _ _ _ _ _ _) as [m2 | ex]; [| discriminate].
    cbn. intros [= <- _]. destruct negative_evals; reflexivity.
Qed.

Lemma negative_evals_qfts_inversion (ne : bool) (params params' : Params)
  (ne_qfts : list (option QFT)) (n : Z) :
  iqft params !! "num_qubits" = Some (VInt n) ->
  QPE.negative_evals_qfts ne params = Return (ne_qfts, params') ->
  if ne
  then (exists ne0 ne1, ne_qfts = [Some ne0; Some ne1])
       /\ params'
          = set_iqft (<["num_qubits" := VInt (n - 1)]> (iqft params))
              (set_qft (<["num_qubits" := VInt (n - 1)]> (qft params)) params)
  else ne_qfts = [None; None] /\ params' = params.
Proof.
  intros Hn. unfold QPE.negative_evals_qfts. destruct ne.
  - assert (Hget : dict_getitem (iqft params) "num_qubits" = Return (VInt n))
      by (unfold dict_getitem; rewrite Hn; reflexivity).
    rewrite Hget. cbn [mbind Result_bind value_sub qft iqft set_qft set_iqft].
    destruct (dict_getitem (<["num_qubits" := VInt (n - 1)]> (qft params))
                "name") as [qft_name | ex];
      cbn [mbind Result_bind]; [| discriminate].
    destruct (pluggable_init_params QFT_TYPE qft_name _) as [ne0 | ex];
      cbn [mbind Result_bind]; [| discriminate].
    destruct (dict_getitem (<["num_qubits" := VInt (n - 1)]> (iqft params))
                "name") as [iqft_name | ex];
      cbn [mbind Result_bind]; [| discriminate].
    destruct (pluggable_init_params IQFT_TYPE iqft_name _) as [ne1 | ex];
      cbn [mbind Result_bind]; [| discriminate].
    cbn. intros [= <- <-].
    split; [eexists _, _; reflexivity | reflexivity].
  - cbn. intros [= <- <-]. split; reflexivity.
Qed.

End InitParamsProperties.

Lemma init_configuration `{Aqua} (args : QPEArgs) (self : QPE.QPE) :
  QPE.__init__ args = Return self ->
  QPE._num_ancillae self = arg_num_ancillae args
  /\ QPE._negative_evals self = arg_negative_evals args
  /\ QPE._operator self = arg_operator args
  /\ QPE._iqft self = arg_iqft args
  /\ QPE._ne_qfts self = arg_ne_qfts args.
Proof.
  unfold QPE.__init__.
  destruct (validate args) as [[] | ex]; cbn [mbind Result_bind];
    [| discriminate].
  match goal with |- context [QPE._init_constants ?s] =>
    pose proof (init_constants_same_configuration s) as Hsame;
    destruct (QPE._init_constants s) as [[[] | ex] after]
  end; [| discriminate].
  intros [= <-]. exact Hsame.
Qed.

(** X11. The builder [init_params] returns has the caller's ancilla count,
    plus one exactly when the caller's [negative_evals] is set, and the
    caller's [negative_evals] flag; it carries the two additional QFTs
    exactly when that flag is set or the matrix is flagged as not
    Hermitian. *)
Theorem init_params_builder `{Aqua} (params params' : Params)
  (matrix : option (list (list complex))) (self : QPE.QPE) :
  QPE.init_params params matrix = Return (self, params') ->
  QPE._num_ancillae self
  = (if eigs_negative_evals (eigs params)
     then eigs_num_ancillae (eigs params) + 1
     else eigs_num_ancillae (eigs params))%Z
  /\ QPE._negative_evals self = eigs_negative_evals (eigs params)
  /\ (if eigs_negative_evals (eigs params)
         || negb (eigs_hermitian_matrix (eigs params))
      then exists ne0 ne1, QPE._ne_qfts self = [Some ne0; Some ne1]
      else QPE._ne_qfts self = [None; None]).
Proof.
  intros Hrun.
  destruct (init_params_inversion params params' matrix self Hrun)
    as (m & ne & m' & op & name & component & ne_qfts
        & _ & Hext & _ & _ & _ & Hqfts & Hinit).
  apply init_configuration in Hinit.
  destruct Hinit as (Hn & Hf & _ & _ & Hne). cbn in Hn, Hf, Hne.
  split; [exact Hn | split; [exact Hf | ]].
  apply hermitian_extension_flag in Hext. rewrite <- Hext.
  apply (negative_evals_qfts_inversion ne _ params' ne_qfts
           (eigs_num_ancillae (eigs params))) in Hqfts.
  - rewrite Hne. destruct ne; [apply Hqfts | apply Hqfts].
  - cbn. apply lookup_insert_eq.
Qed.

Lemma init_params_builder_witness :
  exists self,
    QPE._num_ancillae self = 3%Z
    /\ QPE._negative_evals self = false
    /\ exists ne0 ne1, QPE._ne_qfts self = [Some ne0; Some ne1].
Proof.
  destruct (example_init_params_returns false false)
    as (self & params' & Hrun).
  exists self.
  apply (@init_params_builder aqua_stub (example_params 3 false false)
           params' (Some [[Complex 1 0]]) self Hrun).
Defined.

(** X12. [init_params] writes into the caller's dictionary: afterwards
    [num_qubits] of the [iqft] section is the caller's [num_ancillae],
    or, when the two additional QFTs are built, [num_ancillae - 1] in
    both the [iqft] and the [qft] section; everything else is unchanged. *)
Theorem init_params_writes_num_qubits `{Aqua} (params params' : Params)
  (matrix : option (list (list complex))) (self : QPE.QPE) :
  QPE.init_params params matrix = Return (self, params') ->
  let n := eigs_num_ancillae (eigs params) in
  eigs params' = eigs params
  /\ (if eigs_negative_evals (eigs params)
         || negb (eigs_hermitian_matrix (eigs params))
      then iqft params' = <["num_qubits" := VInt (n - 1)]> (iqft params)
           /\ qft params' = <["num_qubits" := VInt (n - 1)]> (qft params)
      else iqft params' = <["num_qubits" := VInt n]> (iqft params)
           /\ qft params' = qft params).
Proof.
  intros Hrun n.
  destruct (init_params_inversion params params' matrix self Hrun)
    as (m & ne & m' & op & name & component & ne_qfts
        & _ & Hext & _ & _ & _ & Hqfts & _).
  apply hermitian_extension_flag in Hext. rewrite <- Hext.
  apply (negative_evals_qfts_inversion ne _ params' ne_qfts n) in Hqfts.
  - destruct ne.
    + destruct Hqfts as [_ ->]. cbn. rewrite insert_insert_eq.
      repeat split.
    + destruct Hqfts as [_ ->]. cbn. repeat split.
  - cbn. apply lookup_insert_eq.
Qed.

Lemma init_params_writes_num_qubits_witness :
  exists params',
    iqft params' = <["num_qubits" := VInt (3 - 1)]>
                     {[ "name" := VStr "APPROXIMATE" ]}
    /\ qft params' = <["num_qubits" := VInt (3 - 1)]>
                       {[ "name" := VStr "APPROXIMATE" ]}.
Proof.
  destruct (example_init_params_returns true true)
    as (self & params' & Hrun).
  exists params'.
  apply (@init_params_writes_num_qubits aqua_stub
           (example_params 3 true true) params' (Some [[Complex 1 0]])
           self Hrun).
Defined.

(** X13. When the [iqft] section has no [name], [init_params] raises
    [KeyError] for that key once the operator is built; the write of
    [num_qubits] into the section does not supply it. *)
Theorem init_params_missing_iqft_name `{Aqua} (params : Params)
  (m m' : list (list complex)) (ne : bool) (op : Operator) :
  QPE.hermitian_extension (eigs_hermitian_matrix (eigs params))
    (eigs_negative_evals (eigs params)) m = Return (ne, m') ->
  Operator_of_matrix m' = Return op ->
  iqft params !! "name" = None ->
  QPE.init_params params (Some m) = Raise (KeyError "name").
Proof.
  intros Hext Hop Hname. unfold QPE.init_params.
  rewrite Hext. cbn [mbind Result_bind]. rewrite Hop.
  cbn [mbind Result_bind]. unfold dict_getitem at 1. cbn [iqft set_iqft].
  rewrite lookup_insert_ne by done. rewrite Hname. reflexivity.
Qed.

Lemma init_params_missing_iqft_name_witness :
  @QPE.init_params aqua_stub
    {| eigs := eigs (example_params 3 true false);
       iqft := ∅;
       qft := qft (example_params 3 true false) |}
    (Some [[Complex 1 0]])
  = Raise (KeyError "name").
Proof.
  apply (@init_params_missing_iqft_name aqua_stub
           {| eigs := eigs (example_params 3 true false);
              iqft := ∅;
              qft := qft (example_params 3 true false) |}
           [[Complex 1 0]] [[Complex 1 0]] false
           {| paulis := [(PyFloat 1, identity_pauli 1)]; num_qubits := 1 |}).
  - reflexivity.
  - reflexivity.
  - apply lookup_empty.
Defined.

(** X20. For a square complex matrix [a] flagged as not Hermitian, the
    extension step of [init_params] yields the [2n x 2n] block matrix
    whose upper right block is [a], whose lower left block is the
    conjugate transpose of [a] and whose diagonal blocks are zero; that
    matrix equals its own conjugate transpose; and the step leaves the
    local [negative_evals] of [init_params] true. *)
Theorem hermitian_extension_is_hermitian (n : nat) (a : list (list complex))
  (negative_evals : bool) :
  has_shape n n a ->
  exists b,
    QPE.hermitian_extension false negative_evals a = Return (true, b)
    /\ b = block (zeros n n) a (getH a) (zeros n n)
    /\ has_shape (2 * n) (2 * n) b
    /\ (forall i j, (i < n)%nat -> (j < n)%nat ->
          entry b i j = czero
          /\ entry b i (n + j) = entry a i j
          /\ entry b (n + i) j = conjugate (entry a j i)
          /\ entry b (n + i) (n + j) = czero)
    /\ getH b = b.
Proof.
  intros Ha. exists (block (zeros n n) a (getH a) (zeros n n)).
  split; [apply hermitian_extension_block; exact Ha | ].
  split; [reflexivity | ].
  split; [apply extension_shape; exact Ha | ].
  split; [intros i j; apply extension_entries; exact Ha | ].
  apply extension_hermitian. exact Ha.
Qed.

Lemma hermitian_extension_is_hermitian_witness :
  exists b,
    QPE.hermitian_extension false false
      [[Complex 1 2; Complex 3 4]; [Complex 5 6; Complex 7 8]]
    = Return (true, b)
    /\ entry b 0 3 = Complex 3 4
    /\ entry b 3 0 = conjugate (Complex 3 4)
    /\ getH b = b.
Proof.
  destruct (hermitian_extension_is_hermitian 2
              [[Complex 1 2; Complex 3 4]; [Complex 5 6; Complex 7 8]] false)
    as (b & Hrun & _ & _ & Hentries & Hherm).
  - split; [reflexivity | repeat constructor].
  - exists b.
    destruct (Hentries 0%nat 1%nat ltac:(lia) ltac:(lia)) as (_ & Hur & _).
    destruct (Hentries 1%nat 0%nat ltac:(lia) ltac:(lia)) as (_ & _ & Hll & _).
    repeat split; assumption.
Defined.

Lemma mapM_broadcast_same {A} (c : nat) (v : list (list A)) :
  Forall (fun row => length row = c) v -> mapM (broadcast c) v = Return v.
Proof.
  induction 1 as [| row v Hrow _ IH]; [reflexivity | ].
  cbn [mapM]. rewrite (broadcast_same c row Hrow). cbn [mbind Result_bind].
  rewrite IH. reflexivity.
Qed.

(** X14. The extension of a matrix that is not square fails: for a
    matrix of [n >= 1] rows whose number of columns is neither [n] nor
    one, the first slice assignment cannot be broadcast and a
    [ValueError] is raised. *)
Theorem hermitian_extension_not_square (n c : nat) (a : list (list complex))
  (negative_evals : bool) :
  has_shape n c a -> (1 <= n)%nat -> c <> n -> c <> 1%nat ->
  exists msg,
    QPE.hermitian_extension false negative_evals a = Raise (ValueError msg).
Proof.
  intros [Hrows Hcols] Hn Hcn Hc1.
  assert (Hshape : (shape a).2 = c).
  { destruct Hcols as [| row a' Hrow _]; [simpl in Hrows; lia | exact Hrow]. }
  assert (HlenH : length (getH a) = c).
  { unfold getH, transpose. rewrite !length_map, length_seq. exact Hshape. }
  assert (HrowsH : Forall (fun row => length row = n) (getH a)).
  { unfold getH, transpose. rewrite !Forall_map. apply Forall_forall.
    intros j _. simpl. rewrite !length_map. exact Hrows. }
  unfold QPE.hermitian_extension, setitem_block, broadcast_to. simpl.
  rewrite Hrows, (mapM_broadcast_same n (getH a) HrowsH).
  cbn [mbind Result_bind]. unfold broadcast.
  destruct (decide (length (getH a) = n)) as [Heq | _]; [congruence | ].
  destruct (getH a) as [| r1 [| r2 v]]; simpl in HlenH.
  - eexists. reflexivity.
  - congruence.
  - eexists. reflexivity.
Qed.

Lemma hermitian_extension_not_square_witness :
  exists msg,
    QPE.hermitian_extension false false
      [[Complex 1 0; Complex 2 0; Complex 3 0];
       [Complex 4 0; Complex 5 0; Complex 6 0]]
    = Raise (ValueError msg).
Proof.
  apply (hermitian_extension_not_square 2 3
           [[Complex 1 0; Complex 2 0; Complex 3 0];
            [Complex 4 0; Complex 5 0; Complex 6 0]] false).
  - split; [reflexivity | repeat constructor].
  - lia.
  - lia.
  - lia.
Defined.

(** ** Assembling the circuit: what the builder records and when it fails *)

(** The correction up to the first auxiliary component. *)
Lemma handle_negative_evals_prefix (self : QPE.QPE) (qc : list Gate)
  (sgn : Qubit) (qs : list Qubit) :
  QPE._handle_negative_evals self qc (sgn :: qs)
  = (ne0 ← getitem (QPE._ne_qfts self) 0;
     qc ← QPE.call_construct_circuit ne0 qs (qc ++ sign_cnots sgn qs);
     qc ← for_ (enumerate (reversed qs))
            (fun iq qc =>
               d ← float_pow2 (iq.1 + 1);
               theta ← truediv (2 * PI) d;
               mret (cu1 theta sgn iq.2 qc)) qc;
     ne1 ← getitem (QPE._ne_qfts self) 1;
     QPE.call_construct_circuit ne1 qs qc).
Proof.
  unfold QPE._handle_negative_evals.
  change (getitem (sgn :: qs) 0) with (Return sgn). cbn [mbind Result_bind].
  assert (Hqs : mapM (getitem (sgn :: qs))
                  (range 1 (Z.of_nat (length (sgn :: qs)))) = Return qs)
    by exact (mapM_getitem_suffix [sgn] qs).
  rewrite Hqs. cbn [mbind Result_bind].
  rewrite (for_appends (fun qi => [CX sgn qi])) by (intros; reflexivity).
  cbn [mbind Result_bind]. rewrite concat_map_singleton. reflexivity.
Qed.

Section ConstructCircuitProperties.
Context `{Terra, Aqua}.

(** X15. [construct_circuit] of the builder is all or nothing: when it
    raises, in any mode, the builder is left exactly as it was; when it
    returns a circuit, the builder differs only in the circuit and the
    two registers it records. *)
Theorem construct_circuit_all_or_nothing (mode : string)
  (register : option (list Qubit)) (self : QPE.QPE) :
  match QPE.construct_circuit mode register self with
  | (Return qc, after) =>
      exists a, after = QPE.set_circuit qc a register self
  | (Raise _, after) => after = self
  end.
Proof.
  unfold QPE.construct_circuit, mbind, QPE.Method_bind, QPE.get, QPE.lift,
    QPE.raise, QPE.lift.
  destruct (PhaseEstimation_new _) as [pe | ex]; [| reflexivity].
  destruct (String.eqb mode "vector"); [reflexivity | ].
  destruct (QuantumRegister _ None) as [a | ex]; [| reflexivity].
  destruct (PhaseEstimation_construct_circuit pe register a) as [qc | ex];
    [| reflexivity].
  destruct (QPE._negative_evals self).
  - destruct (QPE._handle_negative_evals self qc a) as [qc' | ex];
      [| reflexivity].
    simpl. exists a. reflexivity.
  - simpl. exists a. reflexivity.
Qed.

(** X16. A builder with [negative_evals] set and no first auxiliary
    component, as with the default [ne_qfts] of the constructor, cannot
    build its circuit: once the phase-estimation circuit is there,
    [construct_circuit] raises [AttributeError] and records nothing. *)
Theorem construct_circuit_without_ne_qfts (mode : string)
  (register : option (list Qubit)) (self : QPE.QPE) (pe : PhaseEstimation)
  (sgn : Qubit) (qs : list Qubit) (qc : list Gate)
  (rest : list (option QFT)) :
  mode <> "vector" ->
  QPE._negative_evals self = true ->
  PhaseEstimation_new (phase_estimation_args self) = Return pe ->
  QuantumRegister (QPE._num_ancillae self) None = Return (sgn :: qs) ->
  PhaseEstimation_construct_circuit pe register (sgn :: qs) = Return qc ->
  QPE._ne_qfts self = None :: rest ->
  QPE.construct_circuit mode register self = (Raise AttributeError, self).
Proof.
  intros Hmode Hneg Hpe Ha Hqc Hne.
  rewrite (construct_circuit_not_vector mode register self Hmode).
  unfold QPE.construct_circuit, mbind, QPE.Method_bind, QPE.get, QPE.lift.
  fold (phase_estimation_args self). rewrite Hpe. simpl.
  rewrite Ha, Hqc, Hneg, handle_negative_evals_prefix, Hne. reflexivity.
Qed.

End ConstructCircuitProperties.

Lemma construct_circuit_without_ne_qfts_witness :
  @QPE.construct_circuit terra_stub aqua_stub "circuit" None
    (example_qpe [(PyFloat 1, identity_pauli 1)] (Some 1%R) true
       [None; None])
  = (Raise AttributeError,
     example_qpe [(PyFloat 1, identity_pauli 1)] (Some 1%R) true
       [None; None]).
Proof.
  apply (@construct_circuit_without_ne_qfts terra_stub aqua_stub "circuit"
           None
           (example_qpe [(PyFloat 1, identity_pauli 1)] (Some 1%R) true
              [None; None])
           (phase_estimation_args
              (example_qpe [(PyFloat 1, identity_pauli 1)] (Some 1%R) true
                 [None; None]))
           ("q", 0%nat) [("q", 1%nat)]
           [U "phase_estimation" [] [("q", 0); ("q", 1)]%nat]
           [None]);
    try reflexivity.
  discriminate.
Defined.

(** X17. The two files together: on fewer than 1024 magnitude qubits,
    with approximate QFTs as the two auxiliary components, each of at
    most as many qubits as there are magnitude qubits, the correction
    appends the controlled-NOTs, the gates of the first approximate QFT,
    the controlled phases and the gates of the second approximate QFT,
    all over the magnitude qubits. *)
Theorem correction_with_approximate_qfts `{Terra} (self : QPE.QPE)
  (qc : list Gate) (sgn : Qubit) (qs : list Qubit)
  (a0 a1 : Approximate.Approximate) (rest : list (option QFT)) :
  QPE._ne_qfts self
  = Some (Approximate.as_QFT a0) :: Some (Approximate.as_QFT a1) :: rest ->
  (Z.of_nat (length qs) < 1024)%Z ->
  (Approximate._num_qubits a0 <= Z.of_nat (length qs))%Z ->
  (Approximate._num_qubits a1 <= Z.of_nat (length qs))%Z ->
  QPE._handle_negative_evals self qc (sgn :: qs)
  = Return (qc ++ sign_cnots sgn qs
            ++ aqft_gates (Approximate._num_qubits a0)
                 (Approximate._degree a0) qs
            ++ sign_phases sgn qs
            ++ aqft_gates (Approximate._num_qubits a1)
                 (Approximate._degree a1) qs).
Proof.
  intros Hne Hlen Hfits0 Hfits1.
  rewrite (handle_negative_evals_gates self qc sgn qs _ _ rest
             (aqft_gates (Approximate._num_qubits a0)
                (Approximate._degree a0) qs)
             (aqft_gates (Approximate._num_qubits a1)
                (Approximate._degree a1) qs) Hlen Hne).
  - rewrite <- !app_assoc. reflexivity.
  - apply (construct_circuit_gates a0 (Some qs) (Some _) qs eq_refl Hfits0).
    left. lia.
  - apply (construct_circuit_gates a1 (Some qs) (Some _) qs eq_refl Hfits1).
    left. lia.
Qed.

(** Two magnitude qubits under the sign qubit [q0]: the phases go to
    [q2] with angle [2 pi / 2] and then to [q1] with angle [2 pi / 4]. *)
Lemma correction_with_approximate_qfts_witness :
  QPE._handle_negative_evals (example_signed_qpe 3)
    [] [("q", 0); ("q", 1); ("q", 2)]%nat
  = Return [CX ("q", 0%nat) ("q", 1%nat);
            CX ("q", 0%nat) ("q", 2%nat);
            H ("q", 2%nat);
            CU1 (- PI / pow2 (1 - 0)) ("q", 2%nat) ("q", 1%nat);
            H ("q", 1%nat);
            CU1 (2 * PI / pow2 (0 + 1)) ("q", 0%nat) ("q", 2%nat);
            CU1 (2 * PI / pow2 (1 + 1)) ("q", 0%nat) ("q", 1%nat);
            H ("q", 2%nat);
            CU1 (- PI / pow2 (1 - 0)) ("q", 2%nat) ("q", 1%nat);
            H ("q", 1%nat)].
Proof.
  apply (@correction_with_approximate_qfts terra_stub
           (example_signed_qpe 3)
           [] ("q", 0%nat) [("q", 1%nat); ("q", 2%nat)]
           {| Approximate._num_qubits := 2; Approximate._degree := 0 |}
           {| Approximate._num_qubits := 2; Approximate._degree := 0 |} []).
  - reflexivity.
  - simpl. lia.
  - simpl. lia.
  - simpl. lia.
Defined.

(** X18. An auxiliary approximate QFT with more qubits than there are
    magnitude qubits makes the correction raise [IndexError]. *)
Theorem correction_with_oversized_qft `{Terra} (self : QPE.QPE)
  (qc : list Gate) (sgn : Qubit) (qs : list Qubit)
  (a0 : Approximate.Approximate) (rest : list (option QFT)) :
  QPE._ne_qfts self = Some (Approximate.as_QFT a0) :: rest ->
  (Z.of_nat (length qs) < Approximate._num_qubits a0)%Z ->
  QPE._handle_negative_evals self qc (sgn :: qs) = Raise IndexError.
Proof.
  intros Hne Hshort. rewrite handle_negative_evals_prefix, Hne.
  change (getitem (Some (Approximate.as_QFT a0) :: rest) 0)
    with (Return (Some (Approximate.as_QFT a0))).
  cbn [mbind Result_bind]. unfold QPE.call_construct_circuit.
  cbn [qft_construct_circuit Approximate.as_QFT].
  rewrite (construct_circuit_short_register a0 qs _ Hshort). reflexivity.
Qed.

Lemma correction_with_oversized_qft_witness :
  QPE._handle_negative_evals
    (example_qpe [(PyFloat 1, identity_pauli 1)] (Some 1%R) true
       [Some (stub_qft 2); Some (stub_qft 2)])
    [] [("q", 0); ("q", 1)]%nat
  = Raise IndexError.
Proof.
  apply (@correction_with_oversized_qft terra_stub
           (example_qpe [(PyFloat 1, identity_pauli 1)] (Some 1%R) true
              [Some (stub_qft 2); Some (stub_qft 2)])
           [] ("q", 0%nat) [("q", 1%nat)]
           {| Approximate._num_qubits := 2; Approximate._degree := 0 |}
           [Some (stub_qft 2)]).
  - reflexivity.
  - simpl. lia.
Defined.

(** X22. From 1024 magnitude qubits on the correction cannot be built:
    once the first auxiliary component has returned, the phase of the
    last magnitude qubit needs [2 ** 1024] as a float, and
    [construct_circuit] raises [OverflowError] and records nothing. *)
Theorem correction_overflow `{Terra, Aqua} (mode : string)
  (register : option (list Qubit)) (self : QPE.QPE) (pe : PhaseEstimation)
  (sgn : Qubit) (qs : list Qubit) (qc c0 : list Gate) (f0 : QFT)
  (rest : list (option QFT)) :
  mode <> "vector" ->
  QPE._negative_evals self = true ->
  (1024 <= Z.of_nat (length qs))%Z ->
  PhaseEstimation_new (phase_estimation_args self) = Return pe ->
  QuantumRegister (QPE._num_ancillae self) None = Return (sgn :: qs) ->
  PhaseEstimation_construct_circuit pe register (sgn :: qs) = Return qc ->
  QPE._ne_qfts self = Some f0 :: rest ->
  qft_construct_circuit f0 "circuit" (Some qs)
    (Some (qc ++ map (fun qi => CX sgn qi) qs))
  = Return (OutCircuit c0) ->
  QPE.construct_circuit mode register self = (Raise OverflowError, self).
Proof.
  intros Hmode Hneg Hlen Hpe Ha Hqc Hne Hf0.
  rewrite (construct_circuit_not_vector mode register self Hmode).
  apply (construct_circuit_correction_raises self register pe (sgn :: qs) qc
           OverflowError Hpe Ha Hqc Hneg).
  apply (handle_negative_evals_overflow self qc sgn qs f0 rest c0
           Hlen Hne Hf0).
Qed.

Lemma correction_overflow_witness :
  @QPE.construct_circuit terra_stub aqua_stub "circuit" None
    (example_signed_qpe 1025)
  = (Raise OverflowError, example_signed_qpe 1025).
Proof.
  apply (@correction_overflow terra_stub aqua_stub "circuit" None
           (example_signed_qpe 1025)
           (phase_estimation_args (example_signed_qpe 1025))
           ("q", 0%nat) (magnitude_register 1024)
           [U "phase_estimation" []
              (("q", 0%nat) :: magnitude_register 1024)]
           ([U "phase_estimation" []
               (("q", 0%nat) :: magnitude_register 1024)]
            ++ map (fun qi => CX ("q", 0%nat) qi) (magnitude_register 1024)
            ++ aqft_gates 1024 0 (magnitude_register 1024))
           (stub_qft 1024) [Some (stub_qft 1024)]).
  - discriminate.
  - reflexivity.
  - rewrite length_magnitude_register. lia.
  - reflexivity.
  - reflexivity.
  - reflexivity.
  - reflexivity.
  - rewrite app_assoc. apply stub_qft_gates.
    + rewrite length_magnitude_register. lia.
    + left. lia.
Defined.

(** ** The constructor *)

Lemma example_init_returns :
  exists self, @QPE.__init__ aqua_stub (example_args None true) = Return self.
Proof.
  unfold QPE.__init__. cbn -[QPE._init_constants].
  rewrite init_constants_derived;
    [ | reflexivity | unfold lmax, sum; simpl; rewrite Rabs_R1; lra ].
  rewrite scan_outcome. cbn. eexists. reflexivity.
Qed.

(** X19. The object the constructor returns answers with its arguments:
    [get_register_sizes] gives the operator's qubit count and the
    [num_ancillae] argument, and, for an operator with [lmax = L > 0],
    [get_scaling] gives the [evo_time] argument or, without one, the time
    derived from [L], [num_ancillae] and [negative_evals]. *)
Theorem constructed_builder `{Aqua} (args : QPEArgs) (self : QPE.QPE)
  (L : R) :
  QPE.__init__ args = Return self ->
  lmax (arg_operator args) = L -> (0 < L)%R ->
  QPE.get_register_sizes self
  = (num_qubits (arg_operator args), arg_num_ancillae args)
  /\ QPE.get_scaling self
     = Some match arg_evo_time args with
            | Some t => t
            | None =>
                Finite
                  (if arg_negative_evals args
                   then ((1 / 2 - pow2 (- arg_num_ancillae args)) * 2 * PI
                         / L)%R
                   else ((1 - pow2 (- arg_num_ancillae args)) * 2 * PI / L)%R)
            end.
Proof.
  intros Hinit HL Hpos. split.
  - destruct (init_configuration args self Hinit) as (Hn & _ & Hop & _).
    unfold QPE.get_register_sizes. rewrite Hn, Hop. reflexivity.
  - rewrite (constructed_scaling args self L Hinit HL Hpos).
    unfold derived_evo_time. reflexivity.
Qed.

Lemma constructed_builder_witness :
  exists self,
    QPE.get_register_sizes self = (1, 3)%Z
    /\ QPE.get_scaling self
       = Some (Finite ((1 / 2 - pow2 (- 3)) * 2 * PI / 1)).
Proof.
  destruct example_init_returns as (self & Hinit).
  exists self.
  apply (@constructed_builder aqua_stub (example_args None true) self 1%R
           Hinit).
  - unfold lmax, sum. simpl. rewrite Rabs_R1. lra.
  - lra.
Defined.
